(** * Averaged perceptron training (lib/crf/src/train_averaged_perceptron.c)

    A shallow embedding of [crf_train_averaged_perceptron] and of its helpers
    [update_weights] and [diff], together with the properties of the trainer.

    Conventions of the embedding.
    - A C [int] is an integer of [Z] between [INT_MIN] and [INT_MAX], of 32
      bits.  The one [int] of the trainer that can leave this range is the
      update counter [c]: [++c] and [-c] are wrapped by [int_wrap] (signed
      overflow is undefined in ISO C; the embedding takes the two's
      complement result of the usual targets, as CompCert C does).  The loop
      indices [i] and [n] stay below their bounds.
    - [floatval_t] (a typedef of crfsuite.h, which is not among the sources)
      is the carrier of the class [FloatVal].  The code runs on [binary64],
      IEEE 754 double precision as computed by the kernel's primitive
      floats; the properties of the values computed are proved on it.  The
      instance [rational] (canonical rationals) only serves to show that a
      statement does not depend on rounding.
    - An array is a list; an index is an integer.  Reading or writing outside
      an array is undefined in C: the model reads a default value and leaves
      the array unchanged on such a write.
    - The calls to the collaborators (shuffler, decoder, feature oracle) and
      to the logging sink are recorded, in order, in a trace of events. *)

From Stdlib Require Import ZArith QArith Qcanon Lia.
From Stdlib Require Import Floats.
From stdpp Require Import base list.

Local Open Scope Z_scope.

(** ** Arithmetic of [floatval_t] *)

Class FloatVal : Type := {
  floatval_t : Type;
  (** conversion [(floatval_t)n] of an [int]; also the literals [0.], [1.] *)
  fv_of_int : Z -> floatval_t;
  fv_add : floatval_t -> floatval_t -> floatval_t;
  fv_sub : floatval_t -> floatval_t -> floatval_t;
  fv_mul : floatval_t -> floatval_t -> floatval_t;
  fv_div : floatval_t -> floatval_t -> floatval_t;
  (** the comparison [x < y] *)
  fv_lt : floatval_t -> floatval_t -> bool;
}.

Definition fv_zero `{FloatVal} : floatval_t := fv_of_int 0.

#[global] Instance floatval_inhabited `{FloatVal} : Inhabited floatval_t :=
  populate fv_zero.

(** IEEE 754 binary64.  An [int] of 32 bits converts without rounding. *)
Definition b64_of_int (z : Z) : float :=
  if z <? 0 then PrimFloat.opp (PrimFloat.of_uint63 (Uint63.of_Z (- z)))
  else PrimFloat.of_uint63 (Uint63.of_Z z).

Definition binary64 : FloatVal := {|
  floatval_t := float;
  fv_of_int := b64_of_int;
  fv_add := PrimFloat.add;
  fv_sub := PrimFloat.sub;
  fv_mul := PrimFloat.mul;
  fv_div := PrimFloat.div;
  fv_lt := PrimFloat.ltb;
|}.

(** Arithmetic without rounding, on canonical rationals: an idealisation,
    not the arithmetic of the code.  Division is the field's, with
    [x / 0 = 0]. *)
Definition Qc_ltb (x y : Qc) : bool :=
  match (x ?= y)%Qc with Lt => true | _ => false end.

Definition rational : FloatVal := {|
  floatval_t := Qc;
  fv_of_int := fun z => Q2Qc (inject_Z z);
  fv_add := Qcplus;
  fv_sub := Qcminus;
  fv_mul := Qcmult;
  fv_div := Qcdiv;
  fv_lt := Qc_ltb;
|}.

(** The sign of a number in the representation of SpecFloat: [SFsigned s f]
    when [f] is not a number or has the sign bit [s]. *)
Definition SFsigned (s : bool) (f : spec_float) : Prop :=
  match f with
  | S754_nan => True
  | S754_zero s' | S754_infinity s' | S754_finite s' _ _ => s' = s
  end.

(** Zeros and finite numbers. *)
Definition SFfinite (f : spec_float) : Prop :=
  match f with
  | S754_zero _ | S754_finite _ _ _ => True
  | _ => False
  end.

(** The two arithmetics, for the statements that hold in both. *)
Inductive arith_model : Type := ExactRational | IEEEBinary64.

Definition arith_ops (m : arith_model) : FloatVal :=
  match m with
  | ExactRational => rational
  | IEEEBinary64 => binary64
  end.

(** ** The type [int] *)

(** The bounds of limits.h for an [int] of 32 bits. *)
Definition INT_MAX : Z := 2147483647.

Definition INT_MIN : Z := -2147483648.

(** The [int] that an operation of mathematical result [z] leaves: [z]
    itself when it is an [int], [z] modulo 2^32 otherwise. *)
Definition int_wrap (z : Z) : Z := (z - INT_MIN) mod 4294967296 + INT_MIN.

(** ** Arrays *)

(** [a[i]] *)
Definition array_get {A} (d : A) (a : list A) (i : Z) : A :=
  if i <? 0 then d else nth (Z.to_nat i) a d.

(** [a[i] = f (a[i])] *)
Definition array_update {A} (a : list A) (i : Z) (f : A -> A) : list A :=
  if i <? 0 then a else alter f (Z.to_nat i) a.

(** [calloc]: [ok] tells whether this allocation succeeds; a successful one
    yields [n] zero-filled cells. *)
Definition calloc {A} (ok : bool) (zero : A) (n : Z) : option (list A) :=
  if ok then Some (replicate (Z.to_nat n) zero) else None.

(** The outcome of the five allocations of the trainer, in program order. *)
Record heap_t : Type := {
  perm_ok : bool;
  w_ok : bool;
  ws_ok : bool;
  wa_ok : bool;
  viterbi_ok : bool;
}.

(** ** The trainer *)

Section Trainer.

Context {F : FloatVal}.

(** Modelled from the spec: vecmath.h is not among the sources.  "Vector Ops:
    element-wise copy, element-wise scaled subtraction (dst -= scalar * src)",
    over the first [n] cells. *)
Fixpoint veccopy (y x : list floatval_t) (n : nat) : list floatval_t :=
  match n, y, x with
  | S n', _ :: y', xi :: x' => xi :: veccopy y' x' n'
  | _, _, _ => y
  end.

Fixpoint vecasub (y : list floatval_t) (a : floatval_t) (x : list floatval_t)
    (n : nat) : list floatval_t :=
  match n, y, x with
  | S n', yi :: y', xi :: x' => fv_sub yi (fv_mul a xi) :: vecasub y' a x' n'
  | _, _, _ => y
  end.

(** Modelled from the spec: crfsuite.h is not among the sources.  An instance
    is "an ordered sequence of items with gold labels"; the trainer reads
    [num_items] and [labels], the collaborators also read the items (lists of
    attribute and scale). *)
Record crf_instance_t : Type := {
  num_items : Z;
  items : list (list (Z * floatval_t));
  labels : list Z;
}.

Definition empty_instance : crf_instance_t :=
  {| num_items := 0; items := []; labels := [] |}.

(** Modelled from the spec: the training batch of crfsuite_internal.h, with
    the fields the trainer uses.  [tag b w seq viterbi] is the decoder: it
    returns the decode buffer as it leaves it, and the score.
    [enum_features b seq path] is the feature oracle: the pairs (feature,
    value) it hands to the callback, in the order of the calls. *)
Record crf_train_data_t : Type := {
  num_instances : Z;
  num_features : Z;
  cap_items : Z;
  seqs : list crf_instance_t;
  tag : list floatval_t -> crf_instance_t -> list Z -> list Z * floatval_t;
  enum_features : crf_instance_t -> list Z -> list (Z * floatval_t);
}.

Record option_t : Type := {
  max_iterations : Z;
  epsilon : floatval_t;
}.

(** The defaults declared by [exchange_options]. *)
Definition default_options : option_t :=
  {| max_iterations := 10; epsilon := fv_of_int 0 |}.

(** [ud_w] and [ud_ws] point to the arrays [w] and [ws] of the trainer: the
    trainer reads them back from the record after an enumeration. *)
Record update_data : Type := {
  ud_w : list floatval_t;
  ud_ws : list floatval_t;
  ud_c : floatval_t;
  ud_cs : floatval_t;
}.

Definition update_weights (ud : update_data) (fid : Z) (value : floatval_t)
    : update_data :=
  {| ud_w := array_update (ud_w ud) fid (fun x => fv_add x (fv_mul (ud_c ud) value));
     ud_ws := array_update (ud_ws ud) fid (fun x => fv_add x (fv_mul (ud_cs ud) value));
     ud_c := ud_c ud;
     ud_cs := ud_cs ud |}.

(** The callback applied to every pair the oracle enumerates. *)
Definition enum_apply (feats : list (Z * floatval_t)) (ud : update_data)
    : update_data :=
  fold_left (fun u fv => update_weights u (fst fv) (snd fv)) feats ud.

Definition diff (x y : list Z) (n : Z) : Z :=
  fold_left
    (fun d i => if array_get 0 x i =? array_get 0 y i then d else d + 1)
    (seqZ 0 n) 0.

(** Calls to the collaborators and lines of the log.  Of the lines logged
    the iteration header, the loss and the termination message are kept; the
    parameters printed before the loop, the feature norm and the timings
    (which need [sqrt] and the clock) are not. *)
Inductive event : Type :=
  | CallShuffle
  | CallTag (w : list floatval_t) (idx : Z)
  | CallEnum (idx : Z) (path : list Z)
  | LogIteration (i : Z)
  | LogLoss (loss : floatval_t)
  | LogTerminated.

(** Modelled from the spec: mt19937ar.h is not among the sources.  The
    "Permutation Source" works on a generator state of type [rng_t];
    [mt_shuffle rng perm N init] returns the new state and the buffer. *)
Variable rng_t : Type.
Variable mt_shuffle : rng_t -> list Z -> Z -> Z -> rng_t * list Z.

(** The error code of crfsuite.h. *)
Variable CRFERR_OUTOFMEMORY : Z.

(** The variables of [crf_train_averaged_perceptron] that live across
    iterations, the generator and the trace. *)
Record state : Type := {
  st_i : Z;
  st_c : Z;
  st_w : list floatval_t;
  st_ws : list floatval_t;
  st_wa : list floatval_t;
  st_perm : list Z;
  st_viterbi : list Z;
  st_loss : floatval_t;
  st_rng : rng_t;
  st_trace : list event;
}.

(** Body of the loop over the instances, lines 156-186. *)
Definition process_instance (b : crf_train_data_t) (st : state) (n : Z) : state :=
  let idx := array_get 0 (st_perm st) n in
  let seq := array_get empty_instance (seqs b) idx in
  let '(viterbi, _score) := tag b (st_w st) seq (st_viterbi st) in
  let tr := st_trace st ++ [CallTag (st_w st) idx] in
  let d := diff (labels seq) viterbi (num_items seq) in
  if 0 <? d then
    let ud := {| ud_w := st_w st; ud_ws := st_ws st;
                 ud_c := fv_of_int 1; ud_cs := fv_of_int (st_c st) |} in
    let ud := enum_apply (enum_features b seq (labels seq)) ud in
    let ud := {| ud_w := ud_w ud; ud_ws := ud_ws ud;
                 ud_c := fv_of_int (-1);
                 ud_cs := fv_of_int (int_wrap (- st_c st)) |} in
    let ud := enum_apply (enum_features b seq viterbi) ud in
    {| st_i := st_i st;
       st_c := int_wrap (st_c st + 1);
       st_w := ud_w ud;
       st_ws := ud_ws ud;
       st_wa := st_wa st;
       st_perm := st_perm st;
       st_viterbi := viterbi;
       st_loss := fv_add (st_loss st)
                    (fv_div (fv_of_int d) (fv_of_int (num_items seq)));
       st_rng := st_rng st;
       st_trace := tr ++ [CallEnum idx (labels seq); CallEnum idx viterbi] |}
  else
    {| st_i := st_i st;
       st_c := int_wrap (st_c st + 1);
       st_w := st_w st;
       st_ws := st_ws st;
       st_wa := st_wa st;
       st_perm := st_perm st;
       st_viterbi := viterbi;
       st_loss := st_loss st;
       st_rng := st_rng st;
       st_trace := tr |}.

(** [for (n = 0; n < N; ++n)] *)
Definition instances_loop (b : crf_train_data_t) (st : state) : state :=
  fold_left (process_instance b) (seqZ 0 (num_instances b)) st.

(** An iteration up to the convergence test, lines 149-198, in three steps:
    the loss is reset and the instances are shuffled; the instances are
    processed; [wa] is computed and the progress is logged. *)
Definition shuffle_instances (b : crf_train_data_t) (st : state) : state :=
  let '(rng, perm) := mt_shuffle (st_rng st) (st_perm st) (num_instances b) 1 in
  {| st_i := st_i st; st_c := st_c st; st_w := st_w st; st_ws := st_ws st;
     st_wa := st_wa st; st_perm := perm; st_viterbi := st_viterbi st;
     st_loss := fv_of_int 0; st_rng := rng;
     st_trace := st_trace st ++ [CallShuffle] |}.

Definition average_and_report (b : crf_train_data_t) (st : state) : state :=
  let K := Z.to_nat (num_features b) in
  let wa := veccopy (st_wa st) (st_w st) K in
  let wa := vecasub wa (fv_div (fv_of_int 1) (fv_of_int (st_c st))) (st_ws st) K in
  {| st_i := st_i st; st_c := st_c st; st_w := st_w st; st_ws := st_ws st;
     st_wa := wa; st_perm := st_perm st; st_viterbi := st_viterbi st;
     st_loss := st_loss st; st_rng := st_rng st;
     st_trace := st_trace st ++ [LogIteration (st_i st + 1); LogLoss (st_loss st)] |}.

Definition epoch (b : crf_train_data_t) (st : state) : state :=
  average_and_report b (instances_loop b (shuffle_instances b st)).

(** The convergence test of line 201. *)
Definition converged (b : crf_train_data_t) (opt : option_t) (st : state) : bool :=
  fv_lt (fv_div (st_loss st) (fv_of_int (num_instances b))) (epsilon opt).

Definition log_terminated (st : state) : state :=
  {| st_i := st_i st; st_c := st_c st; st_w := st_w st; st_ws := st_ws st;
     st_wa := st_wa st; st_perm := st_perm st; st_viterbi := st_viterbi st;
     st_loss := st_loss st; st_rng := st_rng st;
     st_trace := st_trace st ++ [LogTerminated] |}.

(** [++i] *)
Definition next_iteration (st : state) : state :=
  {| st_i := st_i st + 1; st_c := st_c st; st_w := st_w st; st_ws := st_ws st;
     st_wa := st_wa st; st_perm := st_perm st; st_viterbi := st_viterbi st;
     st_loss := st_loss st; st_rng := st_rng st; st_trace := st_trace st |}.

(** [for (i = 0; i < opt.max_iterations; ++i)], entered with [i = 0]; [fuel]
    is the number of iterations still allowed, [max_iterations - i]. *)
Fixpoint iterations (b : crf_train_data_t) (opt : option_t) (fuel : nat)
    (st : state) : state :=
  match fuel with
  | O => st
  | S fuel' =>
      let st' := epoch b st in
      if converged b opt st' then log_terminated st'
      else iterations b opt fuel' (next_iteration st')
  end.

(** The state at line 148, before the first iteration. *)
Definition init_state (rng : rng_t) (perm : list Z) (w ws wa : list floatval_t)
    (viterbi : list Z) : state :=
  {| st_i := 0; st_c := 1; st_w := w; st_ws := ws; st_wa := wa;
     st_perm := perm; st_viterbi := viterbi; st_loss := fv_of_int 0;
     st_rng := rng; st_trace := [] |}.

(** The state in which the trainer starts when the allocations succeed. *)
Definition start_state (b : crf_train_data_t) (rng : rng_t) : state :=
  init_state rng
    (replicate (Z.to_nat (num_instances b)) 0)
    (replicate (Z.to_nat (num_features b)) fv_zero)
    (replicate (Z.to_nat (num_features b)) fv_zero)
    (replicate (Z.to_nat (num_features b)) fv_zero)
    (replicate (Z.to_nat (cap_items b)) 0).

(** What a call of the trainer leaves behind: the returned status, the
    vector stored in [*ptr_w] ([None] when it is not written), and the state
    of the run when there is one. *)
Record outcome : Type := {
  ret : Z;
  ptr_w : option (list floatval_t);
  final : option state;
}.

Definition crf_train_averaged_perceptron (heap : heap_t) (b : crf_train_data_t)
    (opt : option_t) (rng : rng_t) : outcome :=
  let N := num_instances b in
  let K := num_features b in
  let T := cap_items b in
  match calloc (perm_ok heap) 0 N,
        calloc (w_ok heap) fv_zero K,
        calloc (ws_ok heap) fv_zero K,
        calloc (wa_ok heap) fv_zero K,
        calloc (viterbi_ok heap) 0 T with
  | Some perm, Some w, Some ws, Some wa, Some viterbi =>
      let st := iterations b opt (Z.to_nat (max_iterations opt))
                  (init_state rng perm w ws wa viterbi) in
      {| ret := 0; ptr_w := Some (st_wa st); final := Some st |}
  | _, _, _, _, _ =>
      {| ret := CRFERR_OUTOFMEMORY; ptr_w := None; final := None |}
  end.

(** *** Observations of a run *)

(** The states at the end of the successive iterations (after the averaging
    and the progress lines, before the convergence test). *)
Fixpoint epoch_ends (b : crf_train_data_t) (opt : option_t) (fuel : nat)
    (st : state) : list state :=
  match fuel with
  | O => []
  | S fuel' =>
      let st' := epoch b st in
      st' :: (if converged b opt st' then []
              else epoch_ends b opt fuel' (next_iteration st'))
  end.

(** The weight vectors handed to the decoder, in the order of the calls. *)
Fixpoint tag_weights (tr : list event) : list (list floatval_t) :=
  match tr with
  | [] => []
  | CallTag w _ :: tr' => w :: tag_weights tr'
  | _ :: tr' => tag_weights tr'
  end.

Definition is_shuffle (e : event) : bool :=
  match e with CallShuffle => true | _ => false end.

Definition is_terminated (e : event) : bool :=
  match e with LogTerminated => true | _ => false end.

Definition count_events (p : event -> bool) (tr : list event) : nat :=
  length (List.filter p tr).

(** The number of iterations a trace went through, and the number of times
    it reports the stopping criterion. *)
Definition epochs_run (tr : list event) : nat := count_events is_shuffle tr.

Definition stops_logged (tr : list event) : nat := count_events is_terminated tr.

Definition is_instance_call (e : event) : bool :=
  match e with
  | CallTag _ _ | CallEnum _ _ => true
  | _ => false
  end.

(** Number of decoder calls recorded in a trace: the instances processed. *)
Definition instances_processed (tr : list event) : Z :=
  Z.of_nat (length (tag_weights tr)).

(** The losses logged by the successive iterations. *)
Fixpoint logged_losses (tr : list event) : list floatval_t :=
  match tr with
  | [] => []
  | LogLoss l :: tr' => l :: logged_losses tr'
  | _ :: tr' => logged_losses tr'
  end.

(** The run of the trainer once the buffers are allocated. *)
Definition run (b : crf_train_data_t) (opt : option_t) (rng : rng_t) : state :=
  iterations b opt (Z.to_nat (max_iterations opt)) (start_state b rng).

Definition run_epoch_ends (b : crf_train_data_t) (opt : option_t) (rng : rng_t)
    : list state :=
  epoch_ends b opt (Z.to_nat (max_iterations opt)) (start_state b rng).

Definition heap_ok (heap : heap_t) : bool :=
  perm_ok heap && w_ok heap && ws_ok heap && wa_ok heap && viterbi_ok heap.

(** The counter is the number of processed instances plus 1, as an [int]. *)
Definition counter_ok (st : state) : Prop :=
  st_c st = int_wrap (instances_processed (st_trace st) + 1).

(** The counter as the spec has it: "after k total instances have been
    processed over any number of epochs, c = k + 1". *)
Definition counts_instances (st : state) : Prop :=
  st_c st = instances_processed (st_trace st) + 1.

(** The batch [b] with another decoder. *)
Definition with_tag (b : crf_train_data_t)
    (tag' : list floatval_t -> crf_instance_t -> list Z -> list Z * floatval_t)
    : crf_train_data_t :=
  {| num_instances := num_instances b; num_features := num_features b;
     cap_items := cap_items b; seqs := seqs b; tag := tag';
     enum_features := enum_features b |}.

(** What an iteration finds and leaves when nothing was ever updated. *)
Record untouched (b : crf_train_data_t) (st : state) : Prop := {
  untouched_w : st_w st = replicate (Z.to_nat (num_features b)) fv_zero;
  untouched_ws : st_ws st = replicate (Z.to_nat (num_features b)) fv_zero;
  untouched_wa : st_wa st = replicate (Z.to_nat (num_features b)) fv_zero;
  untouched_loss : st_loss st = fv_zero;
}.

(** Nothing updated, no instance processed. *)
Definition idle (b : crf_train_data_t) (st : state) : Prop :=
  untouched b st /\ st_c st = 1
  /\ Forall (fun e => is_instance_call e = false) (st_trace st).

(** The history of [w]: its value at each call of the decoder, that is
    before the first instance and after each instance but the last, and its
    current value. *)
Definition snapshots (st : state) : list (list floatval_t) :=
  tag_weights (st_trace st) ++ [st_w st].

(** The naive average of the spec: "the mean of all historical
    weight-vector snapshots", feature by feature. *)
Fixpoint snapshot_sum (hs : list (list floatval_t)) (f : nat) : floatval_t :=
  match hs with
  | [] => fv_zero
  | h :: hs' => fv_add (h !!! f) (snapshot_sum hs' f)
  end.

Definition snapshot_mean (hs : list (list floatval_t)) (f : nat) : floatval_t :=
  fv_div (snapshot_sum hs f) (fv_of_int (Z.of_nat (length hs))).

(** [wa] is [w - ws / c], and the mean of the [c] snapshots. *)
Definition averaged (b : crf_train_data_t) (st : state) : Prop :=
  Z.of_nat (length (snapshots st)) = st_c st
  /\ forall f : nat, (f < Z.to_nat (num_features b))%nat ->
       st_wa st !!! f
       = fv_sub (st_w st !!! f)
           (fv_mul (fv_div (fv_of_int 1) (fv_of_int (st_c st))) (st_ws st !!! f))
       /\ st_wa st !!! f
          = fv_sub (st_w st !!! f) (fv_div (st_ws st !!! f) (fv_of_int (st_c st)))
       /\ st_wa st !!! f = snapshot_mean (snapshots st) f.

(** The instance that [process_instance] works on, the labels it gets from
    the decoder and their distance to the gold labels. *)
Definition current_instance (b : crf_train_data_t) (st : state) (n : Z)
    : crf_instance_t :=
  array_get empty_instance (seqs b) (array_get 0 (st_perm st) n).

Definition predicted (b : crf_train_data_t) (st : state) (n : Z) : list Z :=
  fst (tag b (st_w st) (current_instance b st n) (st_viterbi st)).

Definition mistakes (b : crf_train_data_t) (st : state) (n : Z) : Z :=
  diff (labels (current_instance b st n)) (predicted b st n)
    (num_items (current_instance b st n)).

(** The claim that an iteration of loss 0 is the last one. *)
Definition stops_at_zero_loss (b : crf_train_data_t) (opt : option_t)
    (rng : rng_t) : Prop :=
  forall pre st post,
    run_epoch_ends b opt rng = pre ++ st :: post ->
    st_loss st = fv_zero -> post = [].

(** The calls of the feature oracle recorded in a trace. *)
Definition is_enum (e : event) : bool :=
  match e with CallEnum _ _ => true | _ => false end.

Definition oracle_calls (tr : list event) : nat := count_events is_enum tr.

(** The three weight vectors have [num_features] cells. *)
Definition well_sized (b : crf_train_data_t) (st : state) : Prop :=
  length (st_w st) = Z.to_nat (num_features b)
  /\ length (st_ws st) = Z.to_nat (num_features b)
  /\ length (st_wa st) = Z.to_nat (num_features b).

(** [w - (1./c) * ws], cell by cell. *)
Definition average_of (c : Z) (w ws : list floatval_t) : list floatval_t :=
  zip_with
    (fun x y => fv_sub x (fv_mul (fv_div (fv_of_int 1) (fv_of_int c)) y)) w ws.

(** The positions among the first [n] where two label arrays differ. *)
Definition differing (x y : list Z) (l : list Z) : list Z :=
  List.filter (fun i => negb (array_get 0 x i =? array_get 0 y i)) l.

(** No update so far: [w] and [ws] are zero, the oracle was never called
    and the losses logged are 0. *)
Definition never_updated (b : crf_train_data_t) (st : state) : Prop :=
  st_w st = replicate (Z.to_nat (num_features b)) fv_zero
  /\ st_ws st = replicate (Z.to_nat (num_features b)) fv_zero
  /\ oracle_calls (st_trace st) = 0%nat
  /\ Forall (fun l => l = fv_zero) (logged_losses (st_trace st)).

(** The update of the spec on a mispredicted instance, in its words: a
    feature active under the gold labels "receives w[f] += value and
    ws[f] += c * value", a feature active under the predicted labels
    "w[f] -= value and ws[f] -= c * value", one pair (feature, value) after
    the other, the gold ones first. *)
Definition gain (c : Z) (ww : list floatval_t * list floatval_t)
    (fv : Z * floatval_t) : list floatval_t * list floatval_t :=
  (array_update (fst ww) (fst fv) (fun x => fv_add x (snd fv)),
   array_update (snd ww) (fst fv)
     (fun x => fv_add x (fv_mul (fv_of_int c) (snd fv)))).

Definition lose (c : Z) (ww : list floatval_t * list floatval_t)
    (fv : Z * floatval_t) : list floatval_t * list floatval_t :=
  (array_update (fst ww) (fst fv) (fun x => fv_sub x (snd fv)),
   array_update (snd ww) (fst fv)
     (fun x => fv_sub x (fv_mul (fv_of_int c) (snd fv)))).

Definition perceptron_update (c : Z) (gold pred : list (Z * floatval_t))
    (ww : list floatval_t * list floatval_t)
    : list floatval_t * list floatval_t :=
  fold_left (lose c) pred (fold_left (gain c) gold ww).

(** No update so far, and the average that comes with it: [w] and [ws] are
    zero, the loss is 0, and [wa] is the zero vector unless the counter
    is 0. *)
Definition unmodified (b : crf_train_data_t) (st : state) : Prop :=
  st_w st = replicate (Z.to_nat (num_features b)) fv_zero
  /\ st_ws st = replicate (Z.to_nat (num_features b)) fv_zero
  /\ st_loss st = fv_zero
  /\ (st_c st <> 0 ->
      st_wa st = replicate (Z.to_nat (num_features b)) fv_zero).

(** What the iterations keep when no update is ever made. *)
Definition calm (b : crf_train_data_t) (st : state) : Prop :=
  never_updated b st /\ well_sized b st /\ counter_ok st.

(** [wa] as the code computes it: cell by cell [w - (1./c) * ws], where [c]
    is the [int] that counts the snapshots of [w]. *)
Definition average_as_computed (b : crf_train_data_t) (st : state) : Prop :=
  INT_MIN <= st_c st <= INT_MAX
  /\ st_c st = int_wrap (Z.of_nat (length (snapshots st)))
  /\ last (snapshots st) = Some (st_w st)
  /\ length (st_wa st) = Z.to_nat (num_features b)
  /\ forall f : nat, (f < Z.to_nat (num_features b))%nat ->
       st_wa st !!! f
       = fv_sub (st_w st !!! f)
           (fv_mul (fv_div (fv_of_int 1) (fv_of_int (st_c st)))
              (st_ws st !!! f)).

End Trainer.

Arguments state {F} rng_t.
Arguments outcome {F} rng_t.
Arguments st_i {F rng_t} s.
Arguments st_c {F rng_t} s.
Arguments st_w {F rng_t} s.
Arguments st_ws {F rng_t} s.
Arguments st_wa {F rng_t} s.
Arguments st_perm {F rng_t} s.
Arguments st_viterbi {F rng_t} s.
Arguments st_loss {F rng_t} s.
Arguments st_rng {F rng_t} s.
Arguments st_trace {F rng_t} s.
Arguments ret {F rng_t} o.
Arguments ptr_w {F rng_t} o.
Arguments final {F rng_t} o.
Arguments init_state {F rng_t}.
Arguments start_state {F rng_t}.
Arguments process_instance {F rng_t}.
Arguments instances_loop {F rng_t}.
Arguments converged {F rng_t}.
Arguments log_terminated {F rng_t}.
Arguments next_iteration {F rng_t}.
Arguments counter_ok {F rng_t}.
Arguments untouched {F rng_t}.
Arguments idle {F rng_t}.
Arguments snapshots {F rng_t}.
Arguments averaged {F rng_t}.
Arguments current_instance {F rng_t}.
Arguments predicted {F rng_t}.
Arguments mistakes {F rng_t}.
Arguments well_sized {F rng_t}.
Arguments counts_instances {F rng_t}.
Arguments unmodified {F rng_t}.
Arguments calm {F rng_t}.
Arguments average_as_computed {F rng_t}.
Arguments never_updated {F rng_t}.
Arguments shuffle_instances {F rng_t} mt_shuffle b st.
Arguments average_and_report {F rng_t} b st.
Arguments epoch {F rng_t} mt_shuffle b st : simpl never.
Arguments enum_apply {F} feats ud : simpl never.
Arguments iterations {F rng_t} mt_shuffle b opt fuel st.
Arguments epoch_ends {F rng_t} mt_shuffle b opt fuel st.
Arguments run {F rng_t} mt_shuffle b opt rng.
Arguments run_epoch_ends {F rng_t} mt_shuffle b opt rng.
Arguments stops_at_zero_loss {F rng_t} mt_shuffle b opt rng.
Arguments crf_train_averaged_perceptron {F rng_t} mt_shuffle CRFERR_OUTOFMEMORY
  heap b opt rng.

(** ** Batches and collaborators to run the trainer on *)

Section Fixtures.

Context {F : FloatVal}.

(** A shuffler without state that leaves the identity permutation. *)
Definition identity_shuffle (rng : unit) (perm : list Z) (N init : Z)
    : unit * list Z :=
  (rng, seqZ 0 N).

(** A decoder over the labels 0 and 1, where feature [l] fires on an item
    labelled [l]: every item is labelled 0 when [w[1] < w[0]] and 1
    otherwise; the score is the weight of the path. *)
Definition unigram_tag (w : list floatval_t) (seq : crf_instance_t)
    (viterbi : list Z) : list Z * floatval_t :=
  let l := if fv_lt (array_get fv_zero w 1) (array_get fv_zero w 0)
           then 0 else 1 in
  let n := Z.to_nat (num_items seq) in
  (replicate n l ++ drop n viterbi,
   fv_mul (fv_of_int (num_items seq)) (array_get fv_zero w l)).

Definition unigram_features (seq : crf_instance_t) (path : list Z)
    : list (Z * floatval_t) :=
  map (fun l => (l, fv_of_int 1)) (take (Z.to_nat (num_items seq)) path).

(** A decoder that always answers the gold labels. *)
Definition gold_tag (w : list floatval_t) (seq : crf_instance_t)
    (viterbi : list Z) : list Z * floatval_t :=
  let n := Z.to_nat (num_items seq) in
  (take n (labels seq) ++ drop n viterbi, fv_zero).

(** One instance of one item with gold label 0: the first decoding answers
    label 1, so that feature 0 is the gold one and feature 1 the predicted. *)
Definition one_mistake_batch : crf_train_data_t :=
  {| num_instances := 1; num_features := 2; cap_items := 1;
     seqs := [ {| num_items := 1; items := [[]]; labels := [0] |} ];
     tag := unigram_tag; enum_features := unigram_features |}.

Definition gold_batch : crf_train_data_t :=
  {| num_instances := 2; num_features := 2; cap_items := 2;
     seqs := [ {| num_items := 2; items := [[]; []]; labels := [0; 1] |};
               {| num_items := 1; items := [[]]; labels := [1] |} ];
     tag := gold_tag; enum_features := unigram_features |}.

(** [n] instances of one item, with the decoder that answers the gold
    labels. *)
Definition gold_batch_of (n : Z) : crf_train_data_t :=
  {| num_instances := n; num_features := 2; cap_items := 1;
     seqs := replicate (Z.to_nat n)
               {| num_items := 1; items := [[]]; labels := [1] |};
     tag := gold_tag; enum_features := unigram_features |}.

Definition empty_batch : crf_train_data_t :=
  {| num_instances := 0; num_features := 2; cap_items := 0;
     seqs := []; tag := unigram_tag; enum_features := unigram_features |}.

(** Options with threshold 0, the default. *)
Definition options_with_cap (max_it : Z) : option_t :=
  {| max_iterations := max_it; epsilon := fv_of_int 0 |}.

(** The first pass over [one_mistake_batch], and its first iteration. *)
Definition first_pass : state unit :=
  instances_loop one_mistake_batch
    (shuffle_instances identity_shuffle one_mistake_batch
       (start_state one_mistake_batch tt)).

Definition first_epoch : state unit :=
  epoch identity_shuffle one_mistake_batch (start_state one_mistake_batch tt).

(** Options with a given threshold. *)
Definition options_with_threshold (max_it : Z) (eps : floatval_t) : option_t :=
  {| max_iterations := max_it; epsilon := eps |}.

End Fixtures.

Definition all_allocated : heap_t :=
  {| perm_ok := true; w_ok := true; ws_ok := true; wa_ok := true;
     viterbi_ok := true |}.

(** A status to stand for the out-of-memory code in the runs below. *)
Definition some_error_code : Z := -1.

(** * Properties that hold in every arithmetic *)

Section Generic.

Context {F : FloatVal}.
Context {rng_t : Type}.
Variable mt_shuffle : rng_t -> list Z -> Z -> Z -> rng_t * list Z.
Variable CRFERR_OUTOFMEMORY : Z.

Local Abbreviation train :=
  (crf_train_averaged_perceptron mt_shuffle CRFERR_OUTOFMEMORY).

Implicit Types (b : crf_train_data_t) (opt : option_t) (st : state rng_t).

Lemma tag_weights_app (tr1 tr2 : list event) :
  tag_weights (tr1 ++ tr2) = tag_weights tr1 ++ tag_weights tr2.
Proof.
  induction tr1 as [|e tr1 IH]; simpl; [reflexivity|].
  destruct e; simpl; rewrite IH; reflexivity.
Qed.

Lemma int_wrap_range (z : Z) : INT_MIN <= int_wrap z <= INT_MAX.
Proof.
  unfold int_wrap, INT_MIN, INT_MAX.
  pose proof (Z.mod_pos_bound (z - -2147483648) 4294967296). lia.
Qed.

Lemma int_wrap_small (z : Z) : INT_MIN <= z <= INT_MAX -> int_wrap z = z.
Proof.
  unfold int_wrap, INT_MIN, INT_MAX. intros H.
  rewrite Z.mod_small by lia. lia.
Qed.

Lemma int_wrap_add (a c : Z) : int_wrap (int_wrap a + c) = int_wrap (a + c).
Proof.
  unfold int_wrap.
  replace ((a - INT_MIN) mod 4294967296 + INT_MIN + c - INT_MIN)
    with ((a - INT_MIN) mod 4294967296 + c) by lia.
  replace (a + c - INT_MIN) with (a - INT_MIN + c) by lia.
  rewrite Zplus_mod_idemp_l. reflexivity.
Qed.

Lemma process_instance_c b st n :
  st_c (process_instance b st n) = int_wrap (st_c st + 1).
Proof.
  unfold process_instance.
  destruct (tag b _ _ _) as [viterbi score].
  destruct (0 <? _); reflexivity.
Qed.

Lemma process_instance_tag_weights b st n :
  tag_weights (st_trace (process_instance b st n))
  = tag_weights (st_trace st) ++ [st_w st].
Proof.
  unfold process_instance.
  destruct (tag b _ _ _) as [viterbi score].
  destruct (0 <? _); simpl; rewrite ?tag_weights_app; simpl;
    rewrite ?app_nil_r; reflexivity.
Qed.

Lemma process_instance_frame b st n :
  st_i (process_instance b st n) = st_i st
  /\ st_wa (process_instance b st n) = st_wa st
  /\ st_perm (process_instance b st n) = st_perm st
  /\ st_rng (process_instance b st n) = st_rng st.
Proof.
  unfold process_instance.
  destruct (tag b _ _ _) as [viterbi score].
  destruct (0 <? _); simpl; auto.
Qed.

Lemma fold_process_c b (ns : list Z) st (z : Z) :
  st_c st = int_wrap z ->
  st_c (fold_left (process_instance b) ns st)
  = int_wrap (z + Z.of_nat (length ns)).
Proof.
  revert st z; induction ns as [|n ns IH]; intros st z Hz; simpl.
  - rewrite Z.add_0_r. exact Hz.
  - rewrite (IH _ (z + 1)).
    + apply (f_equal int_wrap). lia.
    + rewrite process_instance_c, Hz. apply int_wrap_add.
Qed.

Lemma fold_process_processed b (ns : list Z) st :
  instances_processed (st_trace (fold_left (process_instance b) ns st))
  = instances_processed (st_trace st) + Z.of_nat (length ns).
Proof.
  unfold instances_processed.
  revert st; induction ns as [|n ns IH]; intros st; simpl.
  - lia.
  - rewrite IH, process_instance_tag_weights, length_app. simpl. lia.
Qed.

Lemma length_seqZ_max (m n : Z) : Z.of_nat (length (seqZ m n)) = Z.max 0 n.
Proof. rewrite length_seqZ. lia. Qed.

Lemma shuffle_instances_frame b st :
  st_c (shuffle_instances mt_shuffle b st) = st_c st
  /\ st_w (shuffle_instances mt_shuffle b st) = st_w st
  /\ st_ws (shuffle_instances mt_shuffle b st) = st_ws st
  /\ st_wa (shuffle_instances mt_shuffle b st) = st_wa st
  /\ st_loss (shuffle_instances mt_shuffle b st) = fv_zero
  /\ st_trace (shuffle_instances mt_shuffle b st) = st_trace st ++ [CallShuffle].
Proof.
  unfold shuffle_instances. destruct (mt_shuffle _ _ _ _) as [rng perm].
  repeat split.
Qed.

Lemma instances_processed_app_other (tr tr' : list event) :
  Forall (fun e => is_instance_call e = false) tr' ->
  instances_processed (tr ++ tr') = instances_processed tr.
Proof.
  intros H. unfold instances_processed. rewrite tag_weights_app.
  induction H as [|e l He _ IH]; simpl.
  - rewrite app_nil_r. reflexivity.
  - destruct e; try discriminate He; exact IH.
Qed.

Lemma epoch_c b st (z : Z) :
  st_c st = int_wrap z ->
  st_c (epoch mt_shuffle b st) = int_wrap (z + Z.max 0 (num_instances b)).
Proof.
  intros Hz. unfold epoch, instances_loop. cbn [average_and_report st_c].
  rewrite (fold_process_c b _ _ z), length_seqZ_max; [reflexivity|].
  rewrite (proj1 (shuffle_instances_frame b st)). exact Hz.
Qed.

Lemma epoch_processed b st :
  instances_processed (st_trace (epoch mt_shuffle b st))
  = instances_processed (st_trace st) + Z.max 0 (num_instances b).
Proof.
  unfold epoch, instances_loop. cbn [average_and_report st_trace].
  rewrite instances_processed_app_other by (repeat constructor).
  rewrite fold_process_processed, length_seqZ_max.
  destruct (shuffle_instances_frame b st) as (_ & _ & _ & _ & _ & ->).
  rewrite instances_processed_app_other by (repeat constructor). reflexivity.
Qed.

(** ** The loop over the iterations *)

Lemma train_unfold heap b opt rng :
  train heap b opt rng =
  if heap_ok heap
  then {| ret := 0; ptr_w := Some (st_wa (run mt_shuffle b opt rng));
          final := Some (run mt_shuffle b opt rng) |}
  else {| ret := CRFERR_OUTOFMEMORY; ptr_w := None; final := None |}.
Proof.
  unfold crf_train_averaged_perceptron, heap_ok, calloc, run, start_state.
  destruct heap as [[] [] [] [] []]; reflexivity.
Qed.

Lemma last_nonempty_default {A} (x : A) (l : list A) (d d' : A) :
  List.last (x :: l) d = List.last (x :: l) d'.
Proof.
  revert x. induction l as [|y l IH]; intros x; [reflexivity|].
  change (List.last (y :: l) d = List.last (y :: l) d'). apply IH.
Qed.

(** A projection that the two bookkeeping steps leave alone is read, after
    the loop, from the end of the last iteration. *)
Lemma iterations_last {X} (g : state rng_t -> X) b opt fuel st :
  (forall s, g (log_terminated s) = g s) ->
  (forall s, g (next_iteration s) = g s) ->
  g (iterations mt_shuffle b opt fuel st) = g (List.last (epoch_ends mt_shuffle b opt fuel st) st).
Proof.
  intros Hlog Hnext. revert st. induction fuel as [|fuel IH]; intros st; simpl.
  - reflexivity.
  - destruct (converged b opt (epoch mt_shuffle b st)) eqn:Hc.
    + rewrite Hlog. reflexivity.
    + rewrite IH. destruct (epoch_ends mt_shuffle b opt fuel _) as [|s l] eqn:He.
      * simpl. apply Hnext.
      * f_equal. apply last_nonempty_default.
Qed.

(** The vector that the run ends with is the average computed by the last
    iteration. *)
Lemma run_ends_with_last_average b opt (rng : rng_t) :
  st_wa (run mt_shuffle b opt rng)
  = st_wa (List.last (run_epoch_ends mt_shuffle b opt rng) (start_state b rng)).
Proof. unfold run, run_epoch_ends. apply iterations_last; reflexivity. Qed.

(** Invariants of the loop: [P] holds when an iteration begins, [Q] when it
    ends. *)
Lemma epoch_ends_Forall (P Q : state rng_t -> Prop) b opt fuel st :
  (forall s, P s -> Q (epoch mt_shuffle b s) /\ P (next_iteration (epoch mt_shuffle b s))) ->
  P st -> Forall Q (epoch_ends mt_shuffle b opt fuel st).
Proof.
  intros Hstep. revert st. induction fuel as [|fuel IH]; intros st HP; simpl.
  - constructor.
  - destruct (Hstep st HP) as [HQ HP']. constructor; [exact HQ|].
    destruct (converged b opt (epoch mt_shuffle b st)); [constructor | apply IH, HP'].
Qed.

Lemma iterations_invariant (P : state rng_t -> Prop) b opt fuel st :
  (forall s, P s -> P (epoch mt_shuffle b s)) ->
  (forall s, P s -> P (next_iteration s)) ->
  (forall s, P s -> P (log_terminated s)) ->
  P st -> P (iterations mt_shuffle b opt fuel st).
Proof.
  intros He Hn Hl. revert st. induction fuel as [|fuel IH]; intros st HP; simpl.
  - exact HP.
  - destruct (converged b opt (epoch mt_shuffle b st)).
    + apply Hl, He, HP.
    + apply IH, Hn, He, HP.
Qed.

(** No more iterations than the bound of the loop. *)
Lemma epoch_ends_length_le b opt fuel st :
  (length (epoch_ends mt_shuffle b opt fuel st) <= fuel)%nat.
Proof.
  revert st. induction fuel as [|fuel IH]; intros st; simpl; [lia|].
  destruct (converged b opt (epoch mt_shuffle b st)); simpl; [lia|].
  specialize (IH (next_iteration (epoch mt_shuffle b st))). lia.
Qed.

(** When the convergence test never fires, all the iterations are run. *)
Lemma epoch_ends_length_full (P : state rng_t -> Prop) b opt fuel st :
  (forall s, P s -> converged b opt (epoch mt_shuffle b s) = false
                    /\ P (next_iteration (epoch mt_shuffle b s))) ->
  P st -> length (epoch_ends mt_shuffle b opt fuel st) = fuel.
Proof.
  intros Hstep. revert st. induction fuel as [|fuel IH]; intros st HP; simpl.
  - reflexivity.
  - destruct (Hstep st HP) as [-> HP']. rewrite IH by exact HP'. reflexivity.
Qed.

(** The instances processed up to the end of the iteration of rank [k]. *)
Lemma epoch_ends_processed b opt fuel st (k : nat) s :
  epoch_ends mt_shuffle b opt fuel st !! k = Some s ->
  instances_processed (st_trace s)
  = instances_processed (st_trace st)
    + (Z.of_nat k + 1) * Z.max 0 (num_instances b).
Proof.
  revert st k. induction fuel as [|fuel IH]; intros st k; simpl.
  - intros H. discriminate H.
  - destruct k as [|k]; simpl.
    + intros [= <-]. rewrite epoch_processed. lia.
    + destruct (converged b opt (epoch mt_shuffle b st)).
      * intros H. discriminate H.
      * intros H. apply IH in H. rewrite H. cbn [next_iteration st_trace].
        rewrite epoch_processed. lia.
Qed.

(** ** The update counter *)

Lemma counter_ok_epoch b st : counter_ok st -> counter_ok (epoch mt_shuffle b st).
Proof.
  unfold counter_ok. intros H. rewrite (epoch_c b st _ H), epoch_processed.
  apply (f_equal int_wrap). lia.
Qed.

Lemma counter_ok_process b st n :
  counter_ok st -> counter_ok (process_instance b st n).
Proof.
  unfold counter_ok, instances_processed. intros H.
  rewrite process_instance_c, process_instance_tag_weights, length_app, H.
  rewrite int_wrap_add. apply (f_equal int_wrap). simpl. lia.
Qed.

(** While fewer than [INT_MAX] instances were processed the counter is
    their number plus 1. *)
Lemma counter_ok_in_range st :
  counter_ok st -> instances_processed (st_trace st) < INT_MAX ->
  counts_instances st.
Proof.
  unfold counter_ok, counts_instances. intros -> H. apply int_wrap_small.
  unfold instances_processed, INT_MIN, INT_MAX in *. lia.
Qed.

Lemma counter_ok_run b opt (rng : rng_t) :
  counter_ok (run mt_shuffle b opt rng).
Proof.
  unfold run. apply iterations_invariant.
  - intros s. apply counter_ok_epoch.
  - exact (fun s H => H).
  - intros s. unfold counter_ok, instances_processed. simpl.
    rewrite tag_weights_app. simpl. rewrite app_nil_r. exact (fun H => H).
  - reflexivity.
Qed.

Lemma counter_ok_ends b opt (rng : rng_t) :
  Forall counter_ok (run_epoch_ends mt_shuffle b opt rng).
Proof.
  apply epoch_ends_Forall with (P := counter_ok).
  - intros s Hs. split; apply counter_ok_epoch, Hs.
  - reflexivity.
Qed.

Lemma counter_ok_fold b (ns : list Z) st :
  counter_ok st -> counter_ok (fold_left (process_instance b) ns st).
Proof.
  revert st. induction ns as [|n ns IH]; intros st H; simpl; [exact H|].
  apply IH, counter_ok_process, H.
Qed.

Lemma counter_ok_shuffle b st :
  counter_ok st -> counter_ok (shuffle_instances mt_shuffle b st).
Proof.
  unfold counter_ok.
  destruct (shuffle_instances_frame b st) as (-> & _ & _ & _ & _ & ->).
  rewrite instances_processed_app_other by (repeat constructor).
  exact (fun H => H).
Qed.

Lemma counter_ok_next st : counter_ok st -> counter_ok (next_iteration st).
Proof. exact (fun H => H). Qed.

Lemma counter_ok_log st : counter_ok st -> counter_ok (log_terminated st).
Proof.
  unfold counter_ok, instances_processed. simpl. rewrite tag_weights_app.
  simpl. rewrite app_nil_r. exact (fun H => H).
Qed.

Lemma counter_ok_start b (rng : rng_t) : counter_ok (start_state b rng).
Proof. reflexivity. Qed.

(** C5 (amended). The update counter starts at 1, every processed instance
    adds 1 to it as an [int], mistaken or not, and no iteration resets it.
    As long as fewer than [INT_MAX] instances were processed it is their
    number (the decoder calls of the trace) plus 1, at any point of the loop
    over the instances, at the end of each iteration and at the end of the
    run, and it does not decrease; in general it is that number plus 1
    wrapped to 32 bits. *)
Theorem update_counter_counts_until_overflow b opt (rng : rng_t) :
  st_c (start_state b rng) = 1
  /\ instances_processed (st_trace (start_state b rng)) = 0
  /\ (forall st n,
        st_c (process_instance b st n) = int_wrap (st_c st + 1)
        /\ (INT_MIN <= st_c st < INT_MAX ->
            st_c (process_instance b st n) = st_c st + 1)
        /\ instances_processed (st_trace (process_instance b st n))
           = instances_processed (st_trace st) + 1)
  /\ (forall st ns,
        counter_ok st ->
        counter_ok (fold_left (process_instance b) ns
                      (shuffle_instances mt_shuffle b st)))
  /\ Forall counter_ok (run_epoch_ends mt_shuffle b opt rng)
  /\ counter_ok (run mt_shuffle b opt rng)
  /\ Forall (fun st => instances_processed (st_trace st) < INT_MAX ->
                       counts_instances st)
       (run_epoch_ends mt_shuffle b opt rng)
  /\ (instances_processed (st_trace (run mt_shuffle b opt rng)) < INT_MAX ->
      counts_instances (run mt_shuffle b opt rng))
  /\ (forall (j k : nat) s s',
        (j <= k)%nat ->
        run_epoch_ends mt_shuffle b opt rng !! j = Some s ->
        run_epoch_ends mt_shuffle b opt rng !! k = Some s' ->
        instances_processed (st_trace s') < INT_MAX ->
        1 <= st_c s <= st_c s').
Proof.
  split; [reflexivity|]. split; [reflexivity|].
  split.
  { intros st n. split; [apply process_instance_c|]. split.
    - intros H. rewrite process_instance_c. apply int_wrap_small.
      unfold INT_MIN, INT_MAX in *. lia.
    - unfold instances_processed. rewrite process_instance_tag_weights.
      rewrite length_app. simpl. lia. }
  split.
  { intros st ns H. apply counter_ok_fold, counter_ok_shuffle, H. }
  split; [apply counter_ok_ends|].
  split; [apply counter_ok_run|].
  split.
  { eapply Forall_impl; [apply counter_ok_ends|].
    intros s Hs Hlt. apply counter_ok_in_range; assumption. }
  split.
  { apply counter_ok_in_range, counter_ok_run. }
  intros j k s s' Hjk Hj Hk Hlt.
  pose proof (Forall_lookup_1 _ _ _ _ (counter_ok_ends b opt rng) Hj) as Cs.
  pose proof (Forall_lookup_1 _ _ _ _ (counter_ok_ends b opt rng) Hk) as Cs'.
  apply epoch_ends_processed in Hj. apply epoch_ends_processed in Hk.
  change (instances_processed (st_trace (start_state b rng))) with 0 in Hj, Hk.
  assert (Hle : instances_processed (st_trace s)
                <= instances_processed (st_trace s')) by nia.
  rewrite (counter_ok_in_range s Cs) by lia.
  rewrite (counter_ok_in_range s' Cs' Hlt). nia.
Qed.

(** ** Allocation failure and the returned vector *)

(** C8. When one of the five allocations fails the trainer returns the
    out-of-memory code and stores nothing in [*ptr_w]; otherwise it returns 0
    and stores one vector, the [wa] of the end of the run. *)
Theorem allocation_failure_or_result heap b opt (rng : rng_t) :
  train heap b opt rng =
  (if perm_ok heap && w_ok heap && ws_ok heap && wa_ok heap && viterbi_ok heap
   then {| ret := 0; ptr_w := Some (st_wa (run mt_shuffle b opt rng));
           final := Some (run mt_shuffle b opt rng) |}
   else {| ret := CRFERR_OUTOFMEMORY; ptr_w := None; final := None |}).
Proof. apply train_unfold. Qed.

(** ** No iteration *)

(** C10. With [max_iterations <= 0] and successful allocations the trainer
    runs no iteration: the trace of the run is empty (no call of the
    shuffler, the decoder or the feature oracle), the generator is untouched,
    the status is 0 and [*ptr_w] is the zero vector of [num_features] cells. *)
Theorem no_iteration_when_cap_not_positive heap b opt (rng : rng_t) :
  heap_ok heap = true ->
  max_iterations opt <= 0 ->
  ret (train heap b opt rng) = 0
  /\ ptr_w (train heap b opt rng)
     = Some (replicate (Z.to_nat (num_features b)) fv_zero)
  /\ length (replicate (Z.to_nat (num_features b)) fv_zero)
     = Z.to_nat (num_features b)
  /\ final (train heap b opt rng) = Some (start_state b rng)
  /\ st_trace (start_state b rng) = []
  /\ st_rng (start_state b rng) = rng
  /\ run_epoch_ends mt_shuffle b opt rng = [].
Proof.
  intros Hheap Hmax. rewrite train_unfold, Hheap. unfold run, run_epoch_ends.
  replace (Z.to_nat (max_iterations opt)) with 0%nat by lia. simpl.
  rewrite length_replicate. repeat split; reflexivity.
Qed.

(** ** The score of the decoder *)

Section Score.

Variable b : crf_train_data_t.
Variable tag' : list floatval_t -> crf_instance_t -> list Z -> list Z * floatval_t.
Hypothesis same_labels : forall w seq v, fst (tag' w seq v) = fst (tag b w seq v).

Lemma process_instance_with_tag st n :
  process_instance (with_tag b tag') st n = process_instance b st n.
Proof.
  unfold process_instance. simpl.
  specialize (same_labels (st_w st)
    (array_get empty_instance (seqs b) (array_get 0 (st_perm st) n))
    (st_viterbi st)).
  destruct (tag' _ _ _) as [v' s'], (tag b _ _ _) as [v s]. simpl in same_labels.
  subst v'. reflexivity.
Qed.

Lemma instances_loop_with_tag st :
  instances_loop (with_tag b tag') st = instances_loop b st.
Proof.
  unfold instances_loop. simpl. generalize (seqZ 0 (num_instances b)).
  intros ns. revert st. induction ns as [|n ns IH]; intros st; simpl.
  - reflexivity.
  - rewrite process_instance_with_tag. apply IH.
Qed.

Lemma epoch_with_tag st : epoch mt_shuffle (with_tag b tag') st = epoch mt_shuffle b st.
Proof.
  unfold epoch. rewrite instances_loop_with_tag. reflexivity.
Qed.

Lemma iterations_with_tag opt fuel st :
  iterations mt_shuffle (with_tag b tag') opt fuel st = iterations mt_shuffle b opt fuel st
  /\ epoch_ends mt_shuffle (with_tag b tag') opt fuel st = epoch_ends mt_shuffle b opt fuel st.
Proof.
  revert st. induction fuel as [|fuel IH]; intros st; simpl; [split; reflexivity|].
  rewrite epoch_with_tag.
  change (converged (with_tag b tag') opt (epoch mt_shuffle b st))
    with (converged b opt (epoch mt_shuffle b st)).
  destruct (converged b opt (epoch mt_shuffle b st)); [split; reflexivity|].
  destruct (IH (next_iteration (epoch mt_shuffle b st))) as [-> ->]. split; reflexivity.
Qed.

End Score.

(** C9. Two decoders that report the same labels and any scores give the
    same run: the same outcome (status, vector in [*ptr_w], final [w], [ws],
    [wa], counter and trace with the loss of every iteration) and the same
    states at the end of the successive iterations. *)
Theorem decoder_score_is_ignored heap b tag' opt (rng : rng_t) :
  (forall w seq v, fst (tag' w seq v) = fst (tag b w seq v)) ->
  train heap (with_tag b tag') opt rng = train heap b opt rng
  /\ run_epoch_ends mt_shuffle (with_tag b tag') opt rng = run_epoch_ends mt_shuffle b opt rng.
Proof.
  intros Hsame. rewrite !train_unfold. unfold run, run_epoch_ends.
  change (start_state (with_tag b tag') rng) with (start_state b rng).
  destruct (iterations_with_tag b tag' Hsame opt
              (Z.to_nat (max_iterations opt)) (start_state b rng)) as [-> ->].
  split; reflexivity.
Qed.

(** ** A batch without instances *)

Lemma vec_average_zero (K : nat) (a z : floatval_t) :
  fv_sub z (fv_mul a z) = z ->
  vecasub (veccopy (replicate K z) (replicate K z) K) a (replicate K z) K
  = replicate K z.
Proof.
  intros Hz. induction K as [|K IH]; simpl; [reflexivity|].
  rewrite Hz, IH. reflexivity.
Qed.

Lemma untouched_start b (rng : rng_t) : untouched b (start_state b rng).
Proof. split; reflexivity. Qed.

Lemma untouched_next b st : untouched b st -> untouched b (next_iteration st).
Proof. intros [? ? ? ?]. split; assumption. Qed.

Lemma untouched_log b st : untouched b st -> untouched b (log_terminated st).
Proof. intros [? ? ? ?]. split; assumption. Qed.

Section Empty.

Variable b : crf_train_data_t.
Hypothesis no_instance : num_instances b = 0.

(** The averaging step [0 - (1./1) * 0] gives 0. *)
Hypothesis average_of_zero :
  fv_sub fv_zero (fv_mul (fv_div (fv_of_int 1) (fv_of_int 1)) fv_zero) = fv_zero.

Lemma instances_loop_empty st : instances_loop b st = st.
Proof. unfold instances_loop. rewrite no_instance. reflexivity. Qed.

Lemma idle_epoch st : idle b st -> idle b (epoch mt_shuffle b st).
Proof.
  intros [[Hw Hws Hwa Hl] [Hc Htr]]. unfold epoch.
  rewrite instances_loop_empty.
  destruct (shuffle_instances_frame b st) as (Sc & Sw & Sws & Swa & Sl & Str).
  unfold average_and_report.
  rewrite Sc, Sw, Sws, Swa, Sl, Str, Hw, Hws, Hwa, Hc.
  rewrite vec_average_zero by exact average_of_zero.
  split; [split; reflexivity|]. split; [reflexivity|].
  simpl. rewrite !Forall_app. repeat split; [exact Htr| |]; repeat constructor.
Qed.

Lemma idle_start (rng : rng_t) : idle b (start_state b rng).
Proof. split; [apply untouched_start|]. split; [reflexivity|constructor]. Qed.

Lemma idle_next st : idle b st -> idle b (next_iteration st).
Proof. intros [H [? ?]]. split; [apply untouched_next, H|]. split; assumption. Qed.

Lemma idle_log st : idle b st -> idle b (log_terminated st).
Proof.
  intros [H [? ?]]. split; [apply untouched_log, H|]. split; [assumption|].
  simpl. rewrite Forall_app. split; [assumption|repeat constructor].
Qed.

Lemma empty_batch_run opt (rng : rng_t) :
  idle b (run mt_shuffle b opt rng) /\ Forall (idle b) (run_epoch_ends mt_shuffle b opt rng).
Proof.
  split.
  - unfold run. apply iterations_invariant;
      auto using idle_epoch, idle_next, idle_log, idle_start.
  - apply epoch_ends_Forall with (P := idle b); [|apply idle_start].
    intros s Hs. split; [|apply idle_next]; apply idle_epoch, Hs.
Qed.

End Empty.

(** ** Counting the iterations in the trace *)

Lemma count_events_app (p : event -> bool) (tr1 tr2 : list event) :
  count_events p (tr1 ++ tr2) = (count_events p tr1 + count_events p tr2)%nat.
Proof. unfold count_events. rewrite List.filter_app. apply length_app. Qed.

Section Counting.

Variable p : event -> bool.
Hypothesis p_tag : forall w idx, p (CallTag w idx) = false.
Hypothesis p_enum : forall idx path, p (CallEnum idx path) = false.
Hypothesis p_iteration : forall i, p (LogIteration i) = false.
Hypothesis p_loss : forall l, p (LogLoss l) = false.

Lemma process_instance_count b st n :
  count_events p (st_trace (process_instance b st n))
  = count_events p (st_trace st)
  /\ st_i (process_instance b st n) = st_i st.
Proof.
  unfold process_instance. destruct (tag b _ _ _) as [viterbi score].
  destruct (0 <? _); cbn [st_trace st_i]; rewrite !count_events_app;
    unfold count_events; simpl; rewrite ?p_tag, ?p_enum; simpl; split; lia.
Qed.

Lemma instances_loop_count b st :
  count_events p (st_trace (instances_loop b st)) = count_events p (st_trace st)
  /\ st_i (instances_loop b st) = st_i st.
Proof.
  unfold instances_loop. generalize (seqZ 0 (num_instances b)). intros ns.
  revert st. induction ns as [|n ns IH]; intros st; simpl; [auto|].
  destruct (IH (process_instance b st n)) as [-> ->].
  apply process_instance_count.
Qed.

Lemma epoch_count b st :
  count_events p (st_trace (epoch mt_shuffle b st))
  = (count_events p (st_trace st) + (if p CallShuffle then 1 else 0))%nat
  /\ st_i (epoch mt_shuffle b st) = st_i st.
Proof.
  unfold epoch. cbn [average_and_report st_trace st_i].
  rewrite count_events_app.
  destruct (instances_loop_count b (shuffle_instances mt_shuffle b st)) as [-> ->].
  unfold shuffle_instances. destruct (mt_shuffle _ _ _ _) as [rng perm].
  cbn [st_trace st_i]. rewrite count_events_app. unfold count_events. simpl.
  rewrite p_iteration, p_loss. destruct (p CallShuffle); simpl; split; lia.
Qed.

End Counting.

(** The trace has one shuffle for each iteration run. *)
Lemma iterations_epochs_run b opt fuel st :
  epochs_run (st_trace (iterations mt_shuffle b opt fuel st))
  = (epochs_run (st_trace st) + length (epoch_ends mt_shuffle b opt fuel st))%nat.
Proof.
  unfold epochs_run. revert st.
  induction fuel as [|fuel IH]; intros st; cbn [iterations epoch_ends].
  - simpl. lia.
  - pose proof (proj1 (epoch_count is_shuffle (fun _ _ => eq_refl)
                         (fun _ _ => eq_refl) (fun _ => eq_refl)
                         (fun _ => eq_refl) b st)) as He.
    destruct (converged b opt (epoch mt_shuffle b st)).
    + cbn [log_terminated st_trace]. rewrite count_events_app, He.
      unfold count_events at 2. simpl. lia.
    + rewrite IH. cbn [next_iteration st_trace]. rewrite He. simpl. lia.
Qed.

(** When the convergence test never fires the loop is left by its bound,
    with [i] advanced once for each iteration and no termination message. *)
Lemma iterations_exhausted (P : state rng_t -> Prop) b opt fuel st :
  (forall s, P s -> converged b opt (epoch mt_shuffle b s) = false
                    /\ P (next_iteration (epoch mt_shuffle b s))) ->
  P st ->
  st_i (iterations mt_shuffle b opt fuel st) = st_i st + Z.of_nat fuel
  /\ stops_logged (st_trace (iterations mt_shuffle b opt fuel st))
     = stops_logged (st_trace st).
Proof.
  intros Hstep. unfold stops_logged. revert st.
  induction fuel as [|fuel IH]; intros st HP; cbn [iterations].
  - split; [lia|reflexivity].
  - destruct (Hstep st HP) as [-> HP'].
    destruct (IH _ HP') as [-> ->]. cbn [next_iteration st_i st_trace].
    destruct (epoch_count is_terminated (fun _ _ => eq_refl)
                (fun _ _ => eq_refl) (fun _ => eq_refl)
                (fun _ => eq_refl) b st) as [-> ->].
    simpl. split; lia.
Qed.

End Generic.

(** * Arrays, enumerations and label distance *)

Lemma array_update_length {A} (a : list A) (fid : Z) (g : A -> A) :
  length (array_update a fid g) = length a.
Proof.
  unfold array_update. destruct (fid <? 0); [reflexivity|apply length_alter].
Qed.

Lemma array_update_lookup {A} `{Inhabited A} (a : list A) (fid : Z)
    (g : A -> A) (f : nat) :
  (f < length a)%nat ->
  array_update a fid g !!! f
  = if fid =? Z.of_nat f then g (a !!! f) else a !!! f.
Proof.
  intros Hf. unfold array_update.
  destruct (Z.ltb_spec fid 0) as [Hneg|Hpos],
           (Z.eqb_spec fid (Z.of_nat f)) as [He|Hne];
    try lia; try reflexivity.
  - subst fid. rewrite Nat2Z.id. apply list_lookup_total_alter_eq. exact Hf.
  - apply list_lookup_total_alter_ne. lia.
Qed.

Lemma enum_apply_frame {F : FloatVal} feats (ud : update_data) :
  ud_c (enum_apply feats ud) = ud_c ud
  /\ ud_cs (enum_apply feats ud) = ud_cs ud
  /\ length (ud_w (enum_apply feats ud)) = length (ud_w ud)
  /\ length (ud_ws (enum_apply feats ud)) = length (ud_ws ud).
Proof.
  unfold enum_apply. revert ud.
  induction feats as [|[fid v] rest IH]; intros ud; simpl.
  - auto.
  - destruct (IH (update_weights ud fid v)) as (-> & -> & -> & ->). simpl.
    rewrite !array_update_length. auto.
Qed.

Lemma diff_bounds (x y : list Z) (n : Z) : 0 <= diff x y n <= Z.max 0 n.
Proof.
  unfold diff. rewrite <- (length_seqZ_max 0 n).
  generalize (seqZ 0 n). intros l.
  assert (H : forall d0,
    d0 <= fold_left (fun d i => if array_get 0 x i =? array_get 0 y i
                                then d else d + 1) l d0
       <= d0 + Z.of_nat (length l)).
  { induction l as [|i l IH]; intros d0; simpl; [lia|].
    destruct (_ =? _).
    - specialize (IH d0). lia.
    - specialize (IH (d0 + 1)). lia. }
  specialize (H 0). lia.
Qed.

Lemma veccopy_length {F : FloatVal} (n : nat) (y x : list floatval_t) :
  length (veccopy y x n) = length y.
Proof.
  revert y x. induction n as [|n IH]; intros [|yi y] [|xi x]; simpl;
    try reflexivity.
  rewrite IH. reflexivity.
Qed.

Lemma vecasub_length {F : FloatVal} (n : nat) (y x : list floatval_t) a :
  length (vecasub y a x n) = length y.
Proof.
  revert y x. induction n as [|n IH]; intros [|yi y] [|xi x]; simpl;
    try reflexivity.
  rewrite IH. reflexivity.
Qed.

Lemma array_get_cases {A} (d : A) (l : list A) (i : Z) :
  array_get d l i = d \/ array_get d l i ∈ l.
Proof.
  unfold array_get. destruct (i <? 0); [left; reflexivity|].
  destruct (nth_in_or_default (Z.to_nat i) l d) as [Hin|Hd].
  - right. apply list_elem_of_In, Hin.
  - left. exact Hd.
Qed.

(** * Runs in both arithmetics *)

Lemma average_of_zero_both (m : arith_model) :
  @fv_sub (arith_ops m) fv_zero
    (fv_mul (fv_div (fv_of_int 1) (fv_of_int 1)) fv_zero) = fv_zero.
Proof. destruct m; [apply Qc_is_canon|]; reflexivity. Qed.

(** C6. A batch without instances, the allocations succeeding: the loop over
    the instances has nothing to do (the trace holds no call of the decoder
    or of the feature oracle and the counter stays 1), [w], [ws] and [wa] are
    the zero vector at the end of every iteration and of the run, and the
    trainer returns 0 with the zero vector of [num_features] cells in
    [*ptr_w].  This holds in exact arithmetic and in binary64. *)
Theorem empty_batch_returns_zero_vector (m : arith_model) {rng_t : Type}
    (mt_shuffle : rng_t -> list Z -> Z -> Z -> rng_t * list Z)
    (CRFERR_OUTOFMEMORY : Z) (heap : heap_t)
    (b : @crf_train_data_t (arith_ops m)) (opt : option_t) (rng : rng_t) :
  num_instances b = 0 ->
  heap_ok heap = true ->
  ret (crf_train_averaged_perceptron mt_shuffle CRFERR_OUTOFMEMORY heap b opt rng)
  = 0
  /\ ptr_w (crf_train_averaged_perceptron mt_shuffle CRFERR_OUTOFMEMORY heap b
              opt rng)
     = Some (replicate (Z.to_nat (num_features b)) fv_zero)
  /\ length (replicate (Z.to_nat (num_features b)) (@fv_zero (arith_ops m)))
     = Z.to_nat (num_features b)
  /\ final (crf_train_averaged_perceptron mt_shuffle CRFERR_OUTOFMEMORY heap b
              opt rng)
     = Some (run mt_shuffle b opt rng)
  /\ idle b (run mt_shuffle b opt rng)
  /\ Forall (idle b) (run_epoch_ends mt_shuffle b opt rng).
Proof.
  intros HN Hheap. rewrite train_unfold, Hheap. cbn [ret ptr_w final].
  destruct (empty_batch_run mt_shuffle b HN (average_of_zero_both m) opt rng)
    as [Hrun Hends].
  split; [reflexivity|]. split.
  { f_equal. destruct Hrun as [[_ _ Hwa _] _]. exact Hwa. }
  split; [apply length_replicate|]. split; [reflexivity|].
  split; assumption.
Qed.

(** ** The convergence test on an empty batch, in binary64 *)

Lemma nan_not_lt (eps : float) :
  PrimFloat.ltb (PrimFloat.div (b64_of_int 0) (b64_of_int 0)) eps = false.
Proof.
  rewrite ltb_spec.
  replace (Prim2SF (b64_of_int 0 / b64_of_int 0)) with S754_nan
    by (vm_compute; reflexivity).
  reflexivity.
Qed.

(** X17. In binary64, whatever the threshold, an empty batch is iterated
    over [max_iterations] times: [0. / 0] is not a number and compares
    false, so that the loop is left by its bound, without the termination
    message. *)
Lemma empty_batch_never_converges {rng_t : Type}
    (mt_shuffle : rng_t -> list Z -> Z -> Z -> rng_t * list Z)
    (b : @crf_train_data_t binary64) (opt : option_t) (rng : rng_t) :
  num_instances b = 0 ->
  length (run_epoch_ends mt_shuffle b opt rng) = Z.to_nat (max_iterations opt)
  /\ stops_logged (st_trace (run mt_shuffle b opt rng)) = 0%nat
  /\ st_i (run mt_shuffle b opt rng) = Z.max 0 (max_iterations opt).
Proof.
  intros HN.
  assert (Hstep : forall s, idle b s ->
            converged b opt (epoch mt_shuffle b s) = false
            /\ idle b (next_iteration (epoch mt_shuffle b s))).
  { intros s Hs.
    pose proof (idle_epoch mt_shuffle b HN
                  (average_of_zero_both IEEEBinary64) s Hs) as He.
    split; [|apply idle_next, He].
    destruct He as [[_ _ _ Hl] _]. unfold converged. rewrite Hl, HN.
    apply nan_not_lt. }
  split.
  { apply epoch_ends_length_full with (P := idle b);
      [exact Hstep|apply idle_start]. }
  unfold run.
  destruct (iterations_exhausted mt_shuffle (idle b) b opt
              (Z.to_nat (max_iterations opt)) (start_state b rng) Hstep
              (idle_start b rng)) as [Hi Hs].
  split; [exact Hs|]. rewrite Hi. simpl. lia.
Qed.

(** C1. The code on an empty batch, in binary64: the quotient of the
    convergence test, [0. / 0], is not a number and the test is false.  With
    the default options (10 iterations, threshold 0) the trainer goes through
    the ten iterations, and with 3 iterations and the threshold 1/2 through
    the three, without the termination message, before it returns the zero
    vector.  The claim has it stop after the first iteration. *)
Theorem empty_batch_runs_every_iteration :
  PrimFloat.is_nan
    (@fv_div binary64 fv_zero
       (fv_of_int (num_instances (empty_batch (F := binary64))))) = true
  /\ (let o := crf_train_averaged_perceptron (F := binary64) identity_shuffle
                 some_error_code all_allocated empty_batch
                 default_options tt in
      ret o = 0
      /\ ptr_w o = Some [0; 0]%float
      /\ option_map (fun st => (st_i st, epochs_run (st_trace st),
                                stops_logged (st_trace st))) (final o)
         = Some (10, 10%nat, 0%nat))
  /\ (let o := crf_train_averaged_perceptron (F := binary64) identity_shuffle
                 some_error_code all_allocated empty_batch
                 (@Build_option_t binary64 3 0.5%float) tt in
      ret o = 0
      /\ ptr_w o = Some [0; 0]%float
      /\ option_map (fun st => (st_i st, epochs_run (st_trace st),
                                stops_logged (st_trace st))) (final o)
         = Some (3, 3%nat, 0%nat)).
Proof. repeat split; vm_compute; reflexivity. Qed.

(** ** Threshold 0: an iteration of loss 0 is not the last *)

(** C2 (as stated). On [one_mistake_batch] with [epsilon = 0] and
    [max_iterations = 3] the second iteration has loss 0 and a third one
    follows, in exact arithmetic and in binary64. *)
Lemma zero_loss_does_not_stop :
  ~ stops_at_zero_loss (F := rational) identity_shuffle one_mistake_batch
      (options_with_cap 3) tt
  /\ ~ stops_at_zero_loss (F := binary64) identity_shuffle one_mistake_batch
         (options_with_cap 3) tt.
Proof.
  split; unfold stops_at_zero_loss; intros H.
  - set (l := run_epoch_ends identity_shuffle one_mistake_batch
                (options_with_cap 3) tt) in H.
    specialize (H (take 1 l) (nth 1 l (start_state one_mistake_batch tt))
                  (drop 2 l)).
    assert (H1 : l = take 1 l ++ nth 1 l (start_state one_mistake_batch tt)
                     :: drop 2 l) by (vm_compute; reflexivity).
    assert (H2 : st_loss (nth 1 l (start_state one_mistake_batch tt)) = fv_zero)
      by (vm_compute; reflexivity).
    specialize (H H1 H2). vm_compute in H. discriminate H.
  - set (l := run_epoch_ends identity_shuffle one_mistake_batch
                (options_with_cap 3) tt) in H.
    specialize (H (take 1 l) (nth 1 l (start_state one_mistake_batch tt))
                  (drop 2 l)).
    assert (H1 : l = take 1 l ++ nth 1 l (start_state one_mistake_batch tt)
                     :: drop 2 l) by (vm_compute; reflexivity).
    assert (H2 : st_loss (nth 1 l (start_state one_mistake_batch tt)) = fv_zero)
      by (vm_compute; reflexivity).
    specialize (H H1 H2). vm_compute in H. discriminate H.
Qed.

(** * The theorems at work on the batches above *)





Lemma decoder_score_is_ignored_witness :
  crf_train_averaged_perceptron (F := binary64) identity_shuffle
    some_error_code all_allocated
    (with_tag one_mistake_batch
       (fun w seq v => (fst (unigram_tag w seq v), fv_of_int 42)))
    (options_with_cap 3) tt
  = crf_train_averaged_perceptron identity_shuffle some_error_code
      all_allocated one_mistake_batch (options_with_cap 3) tt.
Proof.
  refine (proj1 (decoder_score_is_ignored identity_shuffle some_error_code
                   all_allocated one_mistake_batch _ (options_with_cap 3) tt _)).
  intros w seq v. reflexivity.
Defined.

Lemma no_iteration_when_cap_not_positive_witness :
  ptr_w (crf_train_averaged_perceptron (F := binary64) identity_shuffle
           some_error_code all_allocated one_mistake_batch
           (options_with_cap 0) tt)
  = Some [0; 0]%float.
Proof.
  refine (proj1 (proj2 (no_iteration_when_cap_not_positive identity_shuffle
                          some_error_code all_allocated one_mistake_batch
                          (options_with_cap 0) tt _ _))).
  - reflexivity.
  - simpl. lia.
Defined.

Lemma empty_batch_returns_zero_vector_witness :
  ptr_w (crf_train_averaged_perceptron (F := binary64) identity_shuffle
           some_error_code all_allocated empty_batch (options_with_cap 3) tt)
  = Some [0; 0]%float.
Proof.
  refine (proj1 (proj2 (empty_batch_returns_zero_vector IEEEBinary64
                          identity_shuffle some_error_code all_allocated
                          empty_batch (options_with_cap 3) tt _ _)));
    reflexivity.
Defined.

(** * Further properties of the code *)

(** ** [diff]: the number of positions where the labels differ *)

Lemma diff_fold (x y : list Z) (l : list Z) (d0 : Z) :
  fold_left (fun d i => if array_get 0 x i =? array_get 0 y i then d else d + 1)
    l d0
  = d0 + Z.of_nat (length (differing x y l)).
Proof.
  revert d0. induction l as [|i l IH]; intros d0; simpl; [lia|].
  rewrite IH. destruct (array_get 0 x i =? array_get 0 y i); simpl; lia.
Qed.

Lemma diff_count (x y : list Z) (n : Z) :
  diff x y n = Z.of_nat (length (differing x y (seqZ 0 n))).
Proof. unfold diff. rewrite diff_fold. lia. Qed.

(** X1. [diff] lies between 0 and the number of items compared: it is 0
    when [n <= 0], and never more than [n]. *)
Theorem diff_range (x y : list Z) (n : Z) :
  0 <= diff x y n <= Z.max 0 n /\ (n <= 0 -> diff x y n = 0).
Proof.
  pose proof (diff_bounds x y n) as H. split; [exact H|]. intros Hn. lia.
Qed.

(** X2. [diff] is 0 exactly when the two arrays agree on each of the first
    [n] positions. *)
Theorem diff_zero_iff (x y : list Z) (n : Z) :
  diff x y n = 0
  <-> forall i, 0 <= i < n -> array_get 0 x i = array_get 0 y i.
Proof.
  rewrite diff_count. unfold differing. split.
  - intros H i Hi.
    destruct (Z.eqb_spec (array_get 0 x i) (array_get 0 y i)) as [E|NE];
      [exact E|exfalso].
    assert (Hin : In i (List.filter
              (fun i => negb (array_get 0 x i =? array_get 0 y i)) (seqZ 0 n))).
    { apply List.filter_In. split.
      - apply list_elem_of_In, elem_of_seqZ. lia.
      - apply negb_true_iff, Z.eqb_neq, NE. }
    destruct (List.filter _ _); [destruct Hin|discriminate H].
  - intros H.
    assert (E : List.filter
              (fun i => negb (array_get 0 x i =? array_get 0 y i)) (seqZ 0 n)
              = []).
    { destruct (List.filter _ _) as [|i l] eqn:E; [reflexivity|exfalso].
      assert (Hin : In i (i :: l)) by (left; reflexivity).
      rewrite <- E in Hin. apply List.filter_In in Hin. destruct Hin as [Hi Hne].
      apply list_elem_of_In, elem_of_seqZ in Hi.
      apply negb_true_iff, Z.eqb_neq in Hne. apply Hne, H. lia. }
    rewrite E. reflexivity.
Qed.

(** X3. [diff] does not depend on which array is the gold one. *)
Theorem diff_sym (x y : list Z) (n : Z) : diff x y n = diff y x n.
Proof.
  rewrite !diff_count. unfold differing. do 2 f_equal.
  apply List.filter_ext. intros i. rewrite (Z.eqb_sym (array_get 0 x i)).
  reflexivity.
Qed.

(** ** [update_weights] and the trainer, in every arithmetic *)

Section Frame.

Context {F : FloatVal}.
Context {rng_t : Type}.
Variable mt_shuffle : rng_t -> list Z -> Z -> Z -> rng_t * list Z.
Variable CRFERR_OUTOFMEMORY : Z.

Implicit Types (b : crf_train_data_t) (opt : option_t) (st : state rng_t).

Lemma array_update_other {A} (a : list A) (fid : Z) (g : A -> A) (f : nat) :
  Z.of_nat f <> fid -> array_update a fid g !! f = a !! f.
Proof.
  intros Hne. unfold array_update. destruct (Z.ltb_spec fid 0); [reflexivity|].
  apply list_lookup_alter_ne. lia.
Qed.

(** X4. [update_weights] changes no cell of [w] and [ws] but the cell of the
    feature, keeps the length of both arrays and leaves the multipliers. *)
Theorem update_weights_local (ud : update_data) (fid : Z) (value : floatval_t) :
  length (ud_w (update_weights ud fid value)) = length (ud_w ud)
  /\ length (ud_ws (update_weights ud fid value)) = length (ud_ws ud)
  /\ ud_c (update_weights ud fid value) = ud_c ud
  /\ ud_cs (update_weights ud fid value) = ud_cs ud
  /\ (forall f : nat, Z.of_nat f <> fid ->
        ud_w (update_weights ud fid value) !! f = ud_w ud !! f
        /\ ud_ws (update_weights ud fid value) !! f = ud_ws ud !! f).
Proof.
  unfold update_weights. cbn [ud_w ud_ws ud_c ud_cs].
  rewrite !array_update_length. repeat split; auto using array_update_other.
Qed.

(** *** The size of the weight vectors *)

Lemma well_sized_process b st n :
  well_sized b st -> well_sized b (process_instance b st n).
Proof.
  intros (Hw & Hws & Hwa). unfold well_sized.
  destruct (process_instance_frame b st n) as (_ & -> & _).
  unfold process_instance. destruct (tag b _ _ _) as [viterbi score].
  destruct (0 <? _); cbn [st_w st_ws]; [|auto].
  repeat split; [| |exact Hwa].
  - rewrite (proj1 (proj2 (proj2 (enum_apply_frame _ _)))). cbn [ud_w].
    rewrite (proj1 (proj2 (proj2 (enum_apply_frame _ _)))). exact Hw.
  - rewrite (proj2 (proj2 (proj2 (enum_apply_frame _ _)))). cbn [ud_ws].
    rewrite (proj2 (proj2 (proj2 (enum_apply_frame _ _)))). exact Hws.
Qed.

Lemma well_sized_instances b st :
  well_sized b st -> well_sized b (instances_loop b st).
Proof.
  unfold instances_loop. generalize (seqZ 0 (num_instances b)). intros ns.
  revert st. induction ns as [|n ns IH]; intros st H; simpl; [exact H|].
  apply IH, well_sized_process, H.
Qed.

Lemma well_sized_shuffle b st :
  well_sized b st -> well_sized b (shuffle_instances mt_shuffle b st).
Proof.
  unfold well_sized.
  destruct (shuffle_instances_frame mt_shuffle b st) as (_ & -> & -> & -> & _).
  exact (fun H => H).
Qed.

Lemma average_as_zip (n : nat) :
  forall (wa w ws : list floatval_t) (c : Z),
    length wa = n -> length w = n -> length ws = n ->
    vecasub (veccopy wa w n) (fv_div (fv_of_int 1) (fv_of_int c)) ws n
    = average_of c w ws.
Proof.
  unfold average_of.
  induction n as [|n IH]; intros [|x wa] [|y w] [|z ws] c Hwa Hw Hws;
    try discriminate; [reflexivity|].
  simpl. f_equal. apply IH; simpl in *; lia.
Qed.

Lemma well_sized_epoch b st :
  well_sized b st ->
  well_sized b (epoch mt_shuffle b st)
  /\ st_wa (epoch mt_shuffle b st)
     = average_of (st_c (epoch mt_shuffle b st)) (st_w (epoch mt_shuffle b st))
         (st_ws (epoch mt_shuffle b st)).
Proof.
  intros H. apply well_sized_shuffle, well_sized_instances in H.
  unfold epoch. destruct H as (Hw & Hws & Hwa).
  unfold well_sized. cbn [average_and_report st_w st_ws st_wa st_c].
  rewrite vecasub_length, veccopy_length.
  split; [auto|]. apply average_as_zip; assumption.
Qed.

Lemma well_sized_start b (rng : rng_t) : well_sized b (start_state b rng).
Proof. unfold well_sized. cbn. rewrite !length_replicate. auto. Qed.

(** X5. The three weight vectors keep [num_features] cells at the end of
    every iteration and of the run, and the vector stored in [*ptr_w] has
    [num_features] cells. *)
Theorem weight_vectors_keep_their_size heap b opt (rng : rng_t) :
  Forall (well_sized b) (run_epoch_ends mt_shuffle b opt rng)
  /\ well_sized b (run mt_shuffle b opt rng)
  /\ (forall v,
        ptr_w (crf_train_averaged_perceptron mt_shuffle CRFERR_OUTOFMEMORY
                 heap b opt rng) = Some v ->
        length v = Z.to_nat (num_features b)).
Proof.
  assert (Hrun : well_sized b (run mt_shuffle b opt rng)).
  { unfold run. apply iterations_invariant.
    - intros s Hs. apply well_sized_epoch, Hs.
    - exact (fun s H => H).
    - exact (fun s H => H).
    - apply well_sized_start. }
  split.
  { apply epoch_ends_Forall with (P := well_sized b); [|apply well_sized_start].
    intros s Hs. destruct (well_sized_epoch b s Hs) as [H _].
    split; exact H. }
  split; [exact Hrun|].
  intros v. rewrite train_unfold. destruct (heap_ok heap); [|discriminate].
  intros [= <-]. apply Hrun.
Qed.

(** X6. In every arithmetic, binary64 included, the [wa] of the end of an
    iteration is [w - (1./c) * ws] cell by cell, for the [w], [ws] and [c] of
    that moment: nothing of the previous [wa] is left in it. *)
Theorem average_formula_every_arithmetic b opt (rng : rng_t) :
  Forall (fun st => st_wa st = average_of (st_c st) (st_w st) (st_ws st))
    (run_epoch_ends mt_shuffle b opt rng).
Proof.
  apply epoch_ends_Forall with (P := well_sized b); [|apply well_sized_start].
  intros s Hs. destruct (well_sized_epoch b s Hs) as [H E].
  split; [exact E|exact H].
Qed.

(** *** How the loop over the iterations ends *)

(** X7. The trainer never runs more than [max_iterations] iterations (none
    when the bound is not positive): the shuffles of the trace are as many as
    the iterations run, and [i] ends between 0 and the bound. *)
Theorem iteration_cap b opt (rng : rng_t) :
  epochs_run (st_trace (run mt_shuffle b opt rng))
  = length (run_epoch_ends mt_shuffle b opt rng)
  /\ (length (run_epoch_ends mt_shuffle b opt rng)
      <= Z.to_nat (max_iterations opt))%nat
  /\ 0 <= st_i (run mt_shuffle b opt rng) <= Z.max 0 (max_iterations opt).
Proof.
  split; [unfold run; rewrite iterations_epochs_run; reflexivity|].
  split; [apply epoch_ends_length_le|].
  unfold run.
  assert (H : forall fuel st,
            st_i st <= st_i (iterations mt_shuffle b opt fuel st)
                    <= st_i st + Z.of_nat fuel).
  { induction fuel as [|fuel IH]; intros st; cbn [iterations]; [lia|].
    pose proof (proj2 (epoch_count mt_shuffle is_terminated
                         (fun _ _ => eq_refl) (fun _ _ => eq_refl)
                         (fun _ => eq_refl) (fun _ => eq_refl) b st)) as Hi.
    destruct (converged b opt (epoch mt_shuffle b st)).
    - cbn [log_terminated st_i]. lia.
    - specialize (IH (next_iteration (epoch mt_shuffle b st))).
      cbn [next_iteration st_i] in IH. lia. }
  specialize (H (Z.to_nat (max_iterations opt)) (start_state b rng)).
  cbn [start_state init_state st_i] in H. lia.
Qed.

Lemma epoch_ends_stop b opt fuel st pre s post :
  epoch_ends mt_shuffle b opt fuel st = pre ++ s :: post ->
  converged b opt s = true -> post = [].
Proof.
  revert st pre. induction fuel as [|fuel IH]; intros st pre; cbn [epoch_ends].
  - destruct pre; discriminate.
  - destruct pre as [|p pre]; cbn [app]; intros [= E1 E2] Hc.
    + subst s. rewrite Hc in E2. symmetry. exact E2.
    + destruct (converged b opt (epoch mt_shuffle b st)).
      * destruct pre; discriminate E2.
      * eapply IH; eassumption.
Qed.

Lemma epoch_ends_early b opt fuel st :
  (length (epoch_ends mt_shuffle b opt fuel st) < fuel)%nat ->
  exists pre s, epoch_ends mt_shuffle b opt fuel st = pre ++ [s]
                /\ converged b opt s = true.
Proof.
  revert st. induction fuel as [|fuel IH]; intros st; cbn [epoch_ends]; [lia|].
  destruct (converged b opt (epoch mt_shuffle b st)) eqn:Hc; intros Hlen.
  - exists [], (epoch mt_shuffle b st). split; [reflexivity|exact Hc].
  - cbn [length] in Hlen.
    destruct (IH (next_iteration (epoch mt_shuffle b st))) as (pre & s & E & Hs);
      [lia|].
    exists (epoch mt_shuffle b st :: pre), s. rewrite E. split; [reflexivity|exact Hs].
Qed.

Lemma iterations_stops_logged b opt fuel st :
  stops_logged (st_trace (iterations mt_shuffle b opt fuel st))
  = (stops_logged (st_trace st)
     + length (List.filter (converged b opt) (epoch_ends mt_shuffle b opt fuel st)))%nat.
Proof.
  unfold stops_logged. revert st.
  induction fuel as [|fuel IH]; intros st; cbn [iterations epoch_ends].
  - simpl. lia.
  - pose proof (proj1 (epoch_count mt_shuffle is_terminated
                         (fun _ _ => eq_refl) (fun _ _ => eq_refl)
                         (fun _ => eq_refl) (fun _ => eq_refl) b st)) as He.
    cbn [List.filter].
    destruct (converged b opt (epoch mt_shuffle b st)).
    + cbn [log_terminated st_trace]. rewrite count_events_app, He.
      unfold count_events at 2. simpl. lia.
    + rewrite IH. cbn [next_iteration st_trace]. rewrite He. simpl. lia.
Qed.

(** X8. The loop stops at the first iteration that passes the convergence
    test: no iteration follows one that passes, a run shorter than the bound
    ends on one that passes, and the termination message is logged once for
    it (so at most once). *)
Theorem stops_at_first_convergence b opt (rng : rng_t) :
  (forall pre s post,
     run_epoch_ends mt_shuffle b opt rng = pre ++ s :: post ->
     converged b opt s = true -> post = [])
  /\ ((length (run_epoch_ends mt_shuffle b opt rng)
       < Z.to_nat (max_iterations opt))%nat ->
      exists pre s, run_epoch_ends mt_shuffle b opt rng = pre ++ [s]
                    /\ converged b opt s = true)
  /\ stops_logged (st_trace (run mt_shuffle b opt rng))
     = length (List.filter (converged b opt)
                 (run_epoch_ends mt_shuffle b opt rng))
  /\ (stops_logged (st_trace (run mt_shuffle b opt rng)) <= 1)%nat.
Proof.
  split; [intros pre s post; apply epoch_ends_stop|].
  split; [apply epoch_ends_early|].
  assert (Hlog : stops_logged (st_trace (run mt_shuffle b opt rng))
                 = length (List.filter (converged b opt)
                             (run_epoch_ends mt_shuffle b opt rng))).
  { unfold run. rewrite iterations_stops_logged. reflexivity. }
  split; [exact Hlog|]. rewrite Hlog.
  assert (H : forall l : list (state rng_t),
            (forall pre s post, l = pre ++ s :: post ->
               converged b opt s = true -> post = []) ->
            (length (List.filter (converged b opt) l) <= 1)%nat).
  { induction l as [|s l IH]; intros Hl; cbn [List.filter]; [simpl; lia|].
    destruct (converged b opt s) eqn:Hc.
    - rewrite (Hl [] s l eq_refl Hc). simpl. lia.
    - apply IH. intros pre s' post E. apply (Hl (s :: pre) s' post).
      rewrite E. reflexivity. }
  apply H. intros pre s post. apply epoch_ends_stop.
Qed.

(** *** The calls to the collaborators *)

Lemma iterations_processed b opt fuel st :
  instances_processed (st_trace (iterations mt_shuffle b opt fuel st))
  = instances_processed (st_trace st)
    + Z.of_nat (length (epoch_ends mt_shuffle b opt fuel st))
      * Z.max 0 (num_instances b).
Proof.
  revert st. induction fuel as [|fuel IH]; intros st; cbn [iterations epoch_ends].
  - simpl. lia.
  - pose proof (epoch_processed mt_shuffle b st) as He.
    destruct (converged b opt (epoch mt_shuffle b st)).
    + cbn [log_terminated st_trace].
      rewrite instances_processed_app_other by (repeat constructor).
      rewrite He. cbn [length]. lia.
    + rewrite IH. cbn [next_iteration st_trace length]. rewrite He. lia.
Qed.

(** X9. A run of [e] iterations calls the shuffler [e] times and the decoder
    [e * N] times (no time when [N <= 0]), and leaves the counter at
    [1 + e * N] wrapped to an [int]: at [1 + e * N] itself when
    [e * N < INT_MAX]. *)
Theorem collaborator_calls b opt (rng : rng_t) :
  epochs_run (st_trace (run mt_shuffle b opt rng))
  = length (run_epoch_ends mt_shuffle b opt rng)
  /\ instances_processed (st_trace (run mt_shuffle b opt rng))
     = Z.of_nat (length (run_epoch_ends mt_shuffle b opt rng))
       * Z.max 0 (num_instances b)
  /\ st_c (run mt_shuffle b opt rng)
     = int_wrap (1 + Z.of_nat (length (run_epoch_ends mt_shuffle b opt rng))
                     * Z.max 0 (num_instances b))
  /\ (Z.of_nat (length (run_epoch_ends mt_shuffle b opt rng))
      * Z.max 0 (num_instances b) < INT_MAX ->
      st_c (run mt_shuffle b opt rng)
      = 1 + Z.of_nat (length (run_epoch_ends mt_shuffle b opt rng))
            * Z.max 0 (num_instances b)).
Proof.
  assert (Hp : instances_processed (st_trace (run mt_shuffle b opt rng))
               = Z.of_nat (length (run_epoch_ends mt_shuffle b opt rng))
                 * Z.max 0 (num_instances b)).
  { unfold run, run_epoch_ends. rewrite iterations_processed. reflexivity. }
  split; [unfold run; rewrite iterations_epochs_run; reflexivity|].
  split; [exact Hp|].
  pose proof (counter_ok_run mt_shuffle b opt rng) as Hc.
  split.
  - unfold counter_ok in Hc. rewrite Hc, Hp. apply (f_equal int_wrap). lia.
  - intros Hlt. rewrite <- Hp in Hlt.
    rewrite (counter_ok_in_range _ Hc Hlt), Hp. lia.
Qed.

(** X10. What the trainer stores in [*ptr_w] is the [wa] computed by the last
    iteration that was run, and the zero vector it allocated when none was;
    nothing is stored when an allocation failed. *)
Theorem returned_vector_is_last_average heap b opt (rng : rng_t) :
  ptr_w (crf_train_averaged_perceptron mt_shuffle CRFERR_OUTOFMEMORY heap b
           opt rng)
  = if heap_ok heap
    then Some (st_wa (List.last (run_epoch_ends mt_shuffle b opt rng)
                        (start_state b rng)))
    else None.
Proof.
  rewrite train_unfold. destruct (heap_ok heap); [|reflexivity].
  cbn [ptr_w]. f_equal. unfold run, run_epoch_ends.
  apply iterations_last; reflexivity.
Qed.

End Frame.

(** *** A decoder that is always right, in every arithmetic *)

Section RightDecoder.

Context {F : FloatVal}.
Context {rng_t : Type}.
Variable mt_shuffle : rng_t -> list Z -> Z -> Z -> rng_t * list Z.
Variable b : crf_train_data_t.
Hypothesis always_right : forall w seq v,
  seq ∈ seqs b -> diff (labels seq) (fst (tag b w seq v)) (num_items seq) = 0.

Implicit Types (st : state rng_t).

Lemma logged_losses_append (tr1 tr2 : list event) :
  logged_losses (tr1 ++ tr2) = logged_losses tr1 ++ logged_losses tr2.
Proof.
  induction tr1 as [|e tr1 IH]; simpl; [reflexivity|].
  destruct e; simpl; rewrite IH; reflexivity.
Qed.

Lemma process_instance_no_mistake st n :
  st_w (process_instance b st n) = st_w st
  /\ st_ws (process_instance b st n) = st_ws st
  /\ st_loss (process_instance b st n) = st_loss st
  /\ oracle_calls (st_trace (process_instance b st n))
     = oracle_calls (st_trace st)
  /\ logged_losses (st_trace (process_instance b st n))
     = logged_losses (st_trace st).
Proof.
  assert (Hd : mistakes b st n = 0).
  { unfold mistakes, predicted, current_instance.
    destruct (array_get_cases empty_instance (seqs b)
                (array_get 0 (st_perm st) n)) as [-> | Hin];
      [reflexivity|apply always_right, Hin]. }
  unfold mistakes, predicted, current_instance in Hd.
  unfold process_instance. destruct (tag b _ _ _) as [viterbi score].
  cbn [fst] in Hd. rewrite Hd. simpl. unfold oracle_calls.
  rewrite count_events_app, logged_losses_append. simpl.
  rewrite Nat.add_0_r, app_nil_r. auto.
Qed.

Lemma never_updated_epoch st :
  never_updated b st ->
  never_updated b (epoch mt_shuffle b st)
  /\ st_loss (epoch mt_shuffle b st) = fv_zero.
Proof.
  intros (Hw & Hws & Ho & Hl). unfold epoch, instances_loop.
  assert (Hfold : forall ns (s : state rng_t),
    st_w (fold_left (process_instance b) ns s) = st_w s
    /\ st_ws (fold_left (process_instance b) ns s) = st_ws s
    /\ st_loss (fold_left (process_instance b) ns s) = st_loss s
    /\ oracle_calls (st_trace (fold_left (process_instance b) ns s))
       = oracle_calls (st_trace s)
    /\ logged_losses (st_trace (fold_left (process_instance b) ns s))
       = logged_losses (st_trace s)).
  { induction ns as [|n ns IH]; intros s; simpl; [auto|].
    destruct (IH (process_instance b s n)) as (-> & -> & -> & -> & ->).
    apply process_instance_no_mistake. }
  destruct (Hfold (seqZ 0 (num_instances b)) (shuffle_instances mt_shuffle b st))
    as (Fw & Fws & Fl & Fo & Flog).
  destruct (shuffle_instances_frame mt_shuffle b st)
    as (_ & Sw & Sws & _ & Sl & Str).
  unfold never_updated. cbn [average_and_report st_w st_ws st_loss st_trace].
  unfold oracle_calls in *.
  rewrite count_events_app, logged_losses_append, Fo, Flog, Str.
  rewrite count_events_app, logged_losses_append, Fw, Fws, Fl, Sw, Sws, Sl, Ho.
  cbn. rewrite app_nil_r.
  repeat split; try assumption.
  apply Forall_app. split; [exact Hl|]. repeat constructor.
Qed.

End RightDecoder.

(** X11. When the decoder answers the gold labels on every instance of the
    batch then, in every arithmetic, the feature oracle is never called,
    [w] and [ws] are the zero vector at the end of every iteration and of the
    run, and every logged loss is 0. *)
Theorem right_decoder_never_updates {F : FloatVal} {rng_t : Type}
    (mt_shuffle : rng_t -> list Z -> Z -> Z -> rng_t * list Z)
    (b : crf_train_data_t) (opt : option_t) (rng : rng_t) :
  (forall w seq v,
     seq ∈ seqs b ->
     diff (labels seq) (fst (tag b w seq v)) (num_items seq) = 0) ->
  Forall (never_updated b) (run_epoch_ends mt_shuffle b opt rng)
  /\ never_updated b (run mt_shuffle b opt rng).
Proof.
  intros Hright.
  assert (Hstart : never_updated b (start_state b rng)).
  { repeat split. constructor. }
  split.
  - apply epoch_ends_Forall with (P := never_updated b); [|exact Hstart].
    intros s Hs. destruct (never_updated_epoch mt_shuffle b Hright s Hs) as [H _].
    split; exact H.
  - unfold run. apply iterations_invariant; [| | |exact Hstart].
    + intros s Hs. apply (never_updated_epoch mt_shuffle b Hright s Hs).
    + exact (fun s H => H).
    + intros s (Hw & Hws & Ho & Hl). unfold never_updated, oracle_calls in *.
      cbn [log_terminated st_w st_ws st_trace].
      rewrite count_events_app, logged_losses_append, Ho, app_nil_r. auto.
Qed.

(** The convergence test passed by the first iteration: one iteration is
    run, whatever the bound. *)
Lemma first_iteration_converges {F : FloatVal} {rng_t : Type}
    (mt_shuffle : rng_t -> list Z -> Z -> Z -> rng_t * list Z)
    (b : crf_train_data_t) (opt : option_t) (rng : rng_t) :
  0 < max_iterations opt ->
  converged b opt (epoch mt_shuffle b (start_state b rng)) = true ->
  run_epoch_ends mt_shuffle b opt rng = [epoch mt_shuffle b (start_state b rng)]
  /\ stops_logged (st_trace (run mt_shuffle b opt rng)) = 1%nat
  /\ st_i (run mt_shuffle b opt rng) = 0.
Proof.
  intros Hmax Hc. unfold run, run_epoch_ends.
  destruct (Z.to_nat (max_iterations opt)) as [|fuel] eqn:E; [lia|].
  cbn [iterations epoch_ends]. rewrite Hc.
  destruct (epoch_count mt_shuffle is_terminated (fun _ _ => eq_refl)
              (fun _ _ => eq_refl) (fun _ => eq_refl) (fun _ => eq_refl)
              b (start_state b rng)) as [Ht Hi].
  split; [reflexivity|]. cbn [log_terminated st_trace st_i].
  unfold stops_logged. rewrite count_events_app, Ht, Hi. split; reflexivity.
Qed.

(** ** The further properties at work on the batches above *)

Lemma gold_tag_always_right {F : FloatVal} (w : list floatval_t)
    (seq : crf_instance_t) (v : list Z) :
  seq ∈ seqs gold_batch ->
  diff (labels seq) (fst (tag gold_batch w seq v)) (num_items seq) = 0.
Proof.
  intros Hin. apply list_elem_of_In in Hin. simpl in Hin.
  destruct Hin as [<- | [<- | []]]; reflexivity.
Defined.

Lemma right_decoder_never_updates_witness :
  never_updated (F := binary64) gold_batch
    (run identity_shuffle gold_batch (options_with_cap 2) tt).
Proof.
  exact (proj2 (right_decoder_never_updates identity_shuffle gold_batch
                  (options_with_cap 2) tt gold_tag_always_right)).
Defined.





Lemma empty_batch_never_converges_witness :
  length (run_epoch_ends (F := binary64) identity_shuffle empty_batch
            (@Build_option_t binary64 4 1.5%float) tt) = 4%nat.
Proof.
  refine (proj1 (empty_batch_never_converges identity_shuffle empty_batch
                   (@Build_option_t binary64 4 1.5%float) tt _)).
  reflexivity.
Defined.

(** * More of the loop, in every arithmetic *)

Section Averaging.

Context {F : FloatVal}.
Context {rng_t : Type}.
Variable mt_shuffle : rng_t -> list Z -> Z -> Z -> rng_t * list Z.

Implicit Types (b : crf_train_data_t) (opt : option_t) (st : state rng_t).

(** What holds at the end of every iteration holds when the loop is left,
    once an iteration was run. *)
Lemma iterations_ends_invariant (P Q : state rng_t -> Prop) b opt fuel st :
  (forall s, P s -> Q (epoch mt_shuffle b s)
                    /\ P (next_iteration (epoch mt_shuffle b s))) ->
  (forall s, Q s -> Q (next_iteration s)) ->
  (forall s, Q s -> Q (log_terminated s)) ->
  P st -> Q (iterations mt_shuffle b opt (S fuel) st).
Proof.
  intros Hstep Hnext Hlog. revert st.
  induction fuel as [|fuel IH]; intros st HP.
  - cbn [iterations]. destruct (Hstep st HP) as [HQ _].
    destruct (converged b opt (epoch mt_shuffle b st)); auto.
  - change (Q (if converged b opt (epoch mt_shuffle b st)
               then log_terminated (epoch mt_shuffle b st)
               else iterations mt_shuffle b opt (S fuel)
                      (next_iteration (epoch mt_shuffle b st)))).
    destruct (Hstep st HP) as [HQ HP'].
    destruct (converged b opt (epoch mt_shuffle b st)); auto.
Qed.

Lemma average_of_lookup (c : Z) (w ws : list floatval_t) (f : nat) :
  (f < length w)%nat -> (f < length ws)%nat ->
  average_of c w ws !!! f
  = fv_sub (w !!! f) (fv_mul (fv_div (fv_of_int 1) (fv_of_int c)) (ws !!! f)).
Proof.
  intros Hw Hws. apply list_lookup_total_correct.
  unfold average_of. rewrite lookup_zip_with.
  rewrite (list_lookup_lookup_total_lt w f Hw).
  rewrite (list_lookup_lookup_total_lt ws f Hws). reflexivity.
Qed.

Lemma snapshots_process b st n :
  snapshots (process_instance b st n)
  = snapshots st ++ [st_w (process_instance b st n)].
Proof. unfold snapshots. rewrite process_instance_tag_weights. reflexivity. Qed.

Lemma counter_ok_snapshots st :
  counter_ok st -> st_c st = int_wrap (Z.of_nat (length (snapshots st))).
Proof.
  unfold counter_ok, instances_processed, snapshots. intros ->.
  apply (f_equal int_wrap). rewrite length_app. simpl. lia.
Qed.

Lemma average_as_computed_epoch b st :
  well_sized b st -> counter_ok st ->
  average_as_computed b (epoch mt_shuffle b st).
Proof.
  intros Hs Hc. apply (counter_ok_epoch mt_shuffle b) in Hc.
  destruct (well_sized_epoch mt_shuffle b st Hs) as [(Hw & Hws & Hwa) E].
  unfold average_as_computed.
  split; [rewrite Hc; apply int_wrap_range|].
  split; [apply counter_ok_snapshots, Hc|].
  split; [unfold snapshots; apply last_snoc|].
  split; [exact Hwa|].
  intros f Hf. rewrite E. apply average_of_lookup; lia.
Qed.

Lemma average_as_computed_next b st :
  average_as_computed b st -> average_as_computed b (next_iteration st).
Proof. exact (fun H => H). Qed.

Lemma average_as_computed_log b st :
  average_as_computed b st -> average_as_computed b (log_terminated st).
Proof.
  unfold average_as_computed, snapshots. cbn [log_terminated st_c st_w st_ws st_wa st_trace].
  rewrite tag_weights_app. cbn [tag_weights]. rewrite app_nil_r.
  exact (fun H => H).
Qed.

(** The run ends with the average of its last iteration. *)
Lemma run_average b opt (rng : rng_t) :
  0 < max_iterations opt ->
  st_wa (run mt_shuffle b opt rng)
  = average_of (st_c (run mt_shuffle b opt rng)) (st_w (run mt_shuffle b opt rng))
      (st_ws (run mt_shuffle b opt rng)).
Proof.
  intros Hmax. unfold run.
  destruct (Z.to_nat (max_iterations opt)) as [|fuel] eqn:E; [lia|].
  apply iterations_ends_invariant
    with (P := well_sized b)
         (Q := fun s => st_wa s = average_of (st_c s) (st_w s) (st_ws s)).
  - intros s Hs. destruct (well_sized_epoch mt_shuffle b s Hs) as [H E'].
    split; [exact E'|exact H].
  - exact (fun s H => H).
  - exact (fun s H => H).
  - apply well_sized_start.
Qed.

Lemma run_processed b opt (rng : rng_t) :
  instances_processed (st_trace (run mt_shuffle b opt rng))
  = Z.of_nat (length (run_epoch_ends mt_shuffle b opt rng))
    * Z.max 0 (num_instances b).
Proof. unfold run, run_epoch_ends. rewrite iterations_processed. reflexivity. Qed.

Lemma run_counter b opt (rng : rng_t) :
  st_c (run mt_shuffle b opt rng)
  = int_wrap (1 + Z.of_nat (length (run_epoch_ends mt_shuffle b opt rng))
                  * Z.max 0 (num_instances b)).
Proof.
  rewrite (counter_ok_run mt_shuffle b opt rng), run_processed.
  apply (f_equal int_wrap). lia.
Qed.

End Averaging.

Lemma array_update_ext {A} (a : list A) (i : Z) (f g : A -> A) :
  (forall x, f x = g x) -> array_update a i f = array_update a i g.
Proof.
  intros H. unfold array_update. destruct (i <? 0); [reflexivity|].
  apply list_alter_ext; [|reflexivity]. intros x _. apply H.
Qed.

Lemma gold_batch_of_always_right {F : FloatVal} (N : Z)
    (w : list floatval_t) (seq : crf_instance_t) (v : list Z) :
  seq ∈ seqs (gold_batch_of N) ->
  diff (labels seq) (fst (tag (gold_batch_of N) w seq v)) (num_items seq) = 0.
Proof.
  cbn [seqs gold_batch_of]. intros Hin.
  apply elem_of_replicate in Hin. destruct Hin as [-> _]. reflexivity.
Qed.

(** * IEEE 754 binary64: the operations of the trainer

    The lemmas below are proved on the specification of the primitive floats
    (SpecFloat): signs of sums and quotients, the products by [1.] and
    [-1.], the conversion of an [int] and the reciprocal of a nonzero
    [int]. *)

Lemma binary_round_aux_signed s m e l :
  SFsigned s (binary_round_aux prec emax s m e l).
Proof.
  unfold binary_round_aux.
  destruct (shr_fexp prec emax m e l) as [mrs' e'].
  destruct (shr_fexp prec emax _ e' loc_Exact) as [mrs'' e''].
  destruct (shr_m mrs'') as [|p|p]; [reflexivity| |exact I].
  destruct (_ <=? _); reflexivity.
Qed.

Lemma binary_normalize_signed m e :
  0 <= m -> SFsigned false (binary_normalize prec emax m e false).
Proof.
  intros Hm. destruct m as [|p|p]; simpl; [reflexivity| |lia].
  unfold binary_round. destruct (shl_align _ _ _) as [mz ez].
  apply binary_round_aux_signed.
Qed.

Lemma SFadd_signed x y :
  SFsigned false x -> SFsigned false y -> SFsigned false (SFadd prec emax x y).
Proof.
  destruct x as [sx|sx| |sx mx ex], y as [sy|sy| |sy my ey];
    cbn [SFsigned]; intros Hx Hy; subst; cbn [SFadd SFsigned];
    try exact I; try reflexivity.
  cbv zeta. apply binary_normalize_signed. cbn [cond_Zopp]. lia.
Qed.

Lemma SFdiv_signed x y :
  SFsigned false x -> SFsigned false y -> SFsigned false (SFdiv prec emax x y).
Proof.
  destruct x as [sx|sx| |sx mx ex], y as [sy|sy| |sy my ey];
    cbn [SFsigned]; intros Hx Hy; subst; cbn [SFdiv SFsigned xorb];
    try exact I; try reflexivity.
  destruct (SFdiv_core_binary _ _ _ _ _ _) as [[mz ez] lz].
  apply binary_round_aux_signed.
Qed.

Lemma SFltb_signed_zero x (s : bool) :
  SFsigned false x -> SFltb x (S754_zero s) = false.
Proof. destruct x as [sx|sx| |sx mx ex]; simpl; intros H; subst; reflexivity. Qed.

Lemma SFeqb_zero x : SFeqb x (S754_zero false) = true -> exists s, x = S754_zero s.
Proof.
  destruct x as [sx|sx| |sx mx ex]; unfold SFeqb; simpl; intros H;
    try discriminate H.
  - exists sx. reflexivity.
  - destruct sx; discriminate H.
  - destruct sx; discriminate H.
Qed.

Lemma of_int_signed z : 0 <= z -> SFsigned false (Prim2SF (b64_of_int z)).
Proof.
  intros Hz. unfold b64_of_int. destruct (Z.ltb_spec z 0); [lia|].
  rewrite of_uint63_spec. apply binary_normalize_signed.
  apply Uint63.to_Z_bounded.
Qed.

Lemma digits2_pos_iter_xO (p k : positive) :
  Zpos (digits2_pos (Pos.iter xO p k)) = Zpos (digits2_pos p) + Zpos k.
Proof.
  induction k as [|k IH] using Pos.peano_ind.
  - simpl. lia.
  - rewrite Pos.iter_succ. cbn [digits2_pos]. lia.
Qed.

Lemma iter_pos_shr_1_xO (k : positive) :
  forall p, SpecFloat.iter_pos shr_1 k (Build_shr_record (Zpos (Pos.iter xO p k)) false false)
            = Build_shr_record (Zpos p) false false.
Proof.
  induction k as [k IH|k IH|]; intros p.
  - cbn [SpecFloat.iter_pos]. rewrite Pos.xI_succ_xO, Pos.iter_succ. cbn [shr_1 orb].
    rewrite <- Pos.add_diag, Pos.iter_add. rewrite IH, IH. reflexivity.
  - cbn [SpecFloat.iter_pos]. rewrite <- Pos.add_diag, Pos.iter_add. rewrite IH, IH. reflexivity.
  - reflexivity.
Qed.

Lemma valid_finite s m e :
  valid_binary (S754_finite s m e) = true ->
  fexp prec emax (Zpos (digits2_pos m) + e) = e /\ e <= emax - prec.
Proof.
  cbn [SpecFloat.valid_binary]. unfold bounded, canonical_mantissa.
  intros H. apply andb_true_iff in H. destruct H as [H1 H2].
  apply Z.eqb_eq in H1. apply Z.leb_le in H2. split; assumption.
Qed.

(** rounding a valid mantissa shifted left by [k] bits *)
Lemma binary_round_aux_exact s m e (k : positive) :
  valid_binary (S754_finite s m e) = true ->
  binary_round_aux prec emax s (Zpos (Pos.iter xO m k)) (e - Zpos k) loc_Exact
  = S754_finite s m e.
Proof.
  intros Hv. destruct (valid_finite s m e Hv) as [Hc Hb].
  unfold binary_round_aux, shr_fexp. cbn [Zdigits2 shr_record_of_loc].
  rewrite digits2_pos_iter_xO.
  replace (Zpos (digits2_pos m) + Zpos k + (e - Zpos k))
    with (Zpos (digits2_pos m) + e) by lia.
  rewrite Hc. replace (e - (e - Zpos k)) with (Zpos k) by lia.
  cbn [shr]. rewrite iter_pos_shr_1_xO.
  cbn [shr_m loc_of_shr_record round_nearest_even Zdigits2 shr_record_of_loc].
  replace (e - Zpos k + Zpos k) with e by lia.
  rewrite Hc, Z.sub_diag. cbn [shr shr_m].
  apply Z.leb_le in Hb. rewrite Hb. reflexivity.
Qed.

Lemma Prim2SF_one : Prim2SF (b64_of_int 1) = S754_finite false 4503599627370496 (-52).
Proof. reflexivity. Qed.

Lemma Prim2SF_minus_one : Prim2SF (b64_of_int (-1)) = S754_finite true 4503599627370496 (-52).
Proof. reflexivity. Qed.

Lemma SFmul_unit (s : bool) (v : spec_float) :
  valid_binary v = true ->
  SFmul prec emax (S754_finite s 4503599627370496 (-52)) v
  = if s then SFopp v else v.
Proof.
  intros Hv. destruct v as [sv|sv| |sv mv ev]; cbn [SFmul].
  - destruct s; reflexivity.
  - destruct s; reflexivity.
  - destruct s; reflexivity.
  - change (Pos.mul 4503599627370496 mv) with (Pos.iter xO mv 52).
    replace (-52 + ev) with (ev - 52) by lia.
    rewrite binary_round_aux_exact.
    + destruct s; reflexivity.
    + exact Hv.
Qed.

Lemma mul_one (v : float) : PrimFloat.mul (b64_of_int 1) v = v.
Proof.
  apply Prim2SF_inj. rewrite mul_spec, Prim2SF_one. unfold SF64mul.
  rewrite SFmul_unit by apply Prim2SF_valid. reflexivity.
Qed.

Lemma mul_minus_one (v : float) : PrimFloat.mul (b64_of_int (-1)) v = PrimFloat.opp v.
Proof.
  apply Prim2SF_inj. rewrite mul_spec, opp_spec, Prim2SF_minus_one. unfold SF64mul.
  rewrite SFmul_unit by apply Prim2SF_valid. reflexivity.
Qed.

Lemma SFadd_opp x y : SFadd prec emax x (SFopp y) = SFsub prec emax x y.
Proof.
  destruct x as [sx|sx| |sx mx ex], y as [sy|sy| |sy my ey];
    cbn [SFadd SFsub SFopp]; try reflexivity;
    destruct sx, sy; reflexivity.
Qed.

Lemma add_opp (x y : float) : PrimFloat.add x (PrimFloat.opp y) = PrimFloat.sub x y.
Proof.
  apply Prim2SF_inj. rewrite add_spec, sub_spec, opp_spec. apply SFadd_opp.
Qed.

Lemma binary_round_aux_opp s m e l :
  binary_round_aux prec emax (negb s) m e l
  = SFopp (binary_round_aux prec emax s m e l).
Proof.
  unfold binary_round_aux.
  destruct (shr_fexp prec emax m e l) as [mrs' e'].
  destruct (shr_fexp prec emax _ e' loc_Exact) as [mrs'' e''].
  destruct (shr_m mrs'') as [|p|p]; [reflexivity| |reflexivity].
  destruct (_ <=? _); reflexivity.
Qed.

Lemma SFmul_opp x y : SFmul prec emax (SFopp x) y = SFopp (SFmul prec emax x y).
Proof.
  destruct x as [sx|sx| |sx mx ex], y as [sy|sy| |sy my ey];
    cbn [SFmul SFopp]; try reflexivity;
    try (destruct sx, sy; reflexivity).
  rewrite <- binary_round_aux_opp. f_equal. destruct sx, sy; reflexivity.
Qed.

Lemma mul_opp (x y : float) :
  PrimFloat.mul (PrimFloat.opp x) y = PrimFloat.opp (PrimFloat.mul x y).
Proof.
  apply Prim2SF_inj. rewrite mul_spec, !opp_spec, mul_spec. apply SFmul_opp.
Qed.

Lemma opp_involutive (x : float) : PrimFloat.opp (PrimFloat.opp x) = x.
Proof.
  apply Prim2SF_inj. rewrite !opp_spec.
  destruct (Prim2SF x) as [s|s| |s m e]; cbn [SFopp]; rewrite ?negb_involutive;
    reflexivity.
Qed.

Lemma of_int_opp (c : Z) : c <> 0 -> b64_of_int (- c) = PrimFloat.opp (b64_of_int c).
Proof.
  intros Hc. unfold b64_of_int.
  destruct (Z.ltb_spec (- c) 0), (Z.ltb_spec c 0); try lia.
  - rewrite Z.opp_involutive. reflexivity.
  - rewrite opp_involutive. reflexivity.
Qed.

(** [x + (-c) * v = x - c * v] *)
Lemma add_mul_neg (c : Z) (x v : float) :
  c <> 0 ->
  PrimFloat.add x (PrimFloat.mul (b64_of_int (- c)) v)
  = PrimFloat.sub x (PrimFloat.mul (b64_of_int c) v).
Proof. intros Hc. rewrite of_int_opp, mul_opp, add_opp by exact Hc. reflexivity. Qed.

Lemma digits2_pos_lower (p : positive) : 2 ^ (Zpos (digits2_pos p) - 1) <= Zpos p.
Proof.
  induction p as [p IH|p IH|]; cbn [digits2_pos].
  - replace (Zpos (Pos.succ (digits2_pos p)) - 1)
      with (Z.succ (Zpos (digits2_pos p) - 1)) by lia.
    rewrite Z.pow_succ_r by lia. lia.
  - replace (Zpos (Pos.succ (digits2_pos p)) - 1)
      with (Z.succ (Zpos (digits2_pos p) - 1)) by lia.
    rewrite Z.pow_succ_r by lia. lia.
  - simpl. lia.
Qed.

Lemma Zdigits2_le (m B : Z) : 0 <= m < 2 ^ B -> 0 <= B -> Zdigits2 m <= B.
Proof.
  intros [Hm Hlt] HB. destruct m as [|p|p]; cbn [Zdigits2]; [lia| |lia].
  pose proof (digits2_pos_lower p) as Hl.
  destruct (Z.le_gt_cases (Zpos (digits2_pos p)) B) as [H|H]; [exact H|exfalso].
  assert (2 ^ B <= 2 ^ (Zpos (digits2_pos p) - 1))
    by (apply Z.pow_le_mono_r; lia).
  lia.
Qed.

Lemma shr_1_bounds (r : shr_record) :
  0 <= shr_m r -> 0 <= shr_m (shr_1 r) <= shr_m r.
Proof.
  destruct r as [m r s]. cbn [shr_m]. intros Hm.
  destruct m as [|[p|p|]|p]; cbn [shr_1 shr_m]; lia.
Qed.

Lemma iter_pos_shr_1_bounds (k : positive) :
  forall r, 0 <= shr_m r -> 0 <= shr_m (SpecFloat.iter_pos shr_1 k r) <= shr_m r.
Proof.
  induction k as [k IH|k IH|]; intros r Hr; cbn [SpecFloat.iter_pos].
  - pose proof (shr_1_bounds r Hr) as H1.
    pose proof (IH (shr_1 r) (proj1 H1)) as H2.
    pose proof (IH _ (proj1 H2)) as H3. lia.
  - pose proof (IH r Hr) as H2.
    pose proof (IH _ (proj1 H2)) as H3. lia.
  - apply shr_1_bounds, Hr.
Qed.

Lemma shr_m_of_loc (m : Z) (l : location) : shr_m (shr_record_of_loc m l) = m.
Proof. destruct l as [|[]]; reflexivity. Qed.

Lemma shr_fexp_bounds (m e : Z) (l : location) :
  0 <= m ->
  0 <= shr_m (fst (shr_fexp prec emax m e l)) <= m
  /\ snd (shr_fexp prec emax m e l)
     = Z.max e (fexp prec emax (Zdigits2 m + e)).
Proof.
  intros Hm. unfold shr_fexp, shr.
  destruct (fexp prec emax (Zdigits2 m + e) - e) as [|k|k] eqn:E; cbn [fst snd].
  - rewrite shr_m_of_loc. lia.
  - pose proof (iter_pos_shr_1_bounds k (shr_record_of_loc m l)) as H.
    rewrite shr_m_of_loc in H. specialize (H Hm). lia.
  - rewrite shr_m_of_loc. lia.
Qed.

Lemma round_nearest_even_bounds (m : Z) (l : location) :
  m <= round_nearest_even m l <= m + 1.
Proof. destruct l as [|[]]; cbn [round_nearest_even]; try lia. destruct (Z.even m); lia. Qed.

(** A mantissa of at most 200 bits at an exponent of at most 400 rounds to a
    finite number. *)
Lemma binary_round_aux_finite s m e l (B : Z) :
  0 <= m < 2 ^ B -> 0 <= B <= 200 -> e <= 400 ->
  SFfinite (binary_round_aux prec emax s m e l).
Proof.
  intros Hm HB He. unfold binary_round_aux.
  pose proof (shr_fexp_bounds m e l (proj1 Hm)) as [Hm1 He1].
  destruct (shr_fexp prec emax m e l) as [mrs' e']. cbn [fst snd] in Hm1, He1.
  pose proof (round_nearest_even_bounds (shr_m mrs') (loc_of_shr_record mrs')) as Hr.
  set (m1 := round_nearest_even (shr_m mrs') (loc_of_shr_record mrs')) in *.
  assert (Hm1' : 0 <= m1) by lia.
  pose proof (shr_fexp_bounds m1 e' loc_Exact Hm1') as [Hm2 He2].
  destruct (shr_fexp prec emax m1 e' loc_Exact) as [mrs'' e''].
  cbn [fst snd] in Hm2, He2.
  assert (Hd : Zdigits2 m <= B) by (apply Zdigits2_le; lia).
  assert (Hd1 : Zdigits2 m1 <= B + 1).
  { apply Zdigits2_le; [|lia]. rewrite Z.pow_add_r by lia. lia. }
  unfold fexp, SpecFloat.emin in *. 
  assert (He'' : e'' <= emax - prec) by (unfold emax, prec in *; lia).
  destruct (shr_m mrs'') as [|p|p]; [exact I| |lia].
  apply Z.leb_le in He''. rewrite He''. exact I.
Qed.

Lemma binary_round_aux_noshift s m e :
  valid_binary (S754_finite s m e) = true ->
  binary_round_aux prec emax s (Zpos m) e loc_Exact = S754_finite s m e.
Proof.
  intros Hv. destruct (valid_finite s m e Hv) as [Hc Hb].
  unfold binary_round_aux, shr_fexp. cbn [Zdigits2 shr_record_of_loc].
  rewrite Hc, Z.sub_diag. 
  cbn [shr shr_m loc_of_shr_record round_nearest_even Zdigits2 shr_record_of_loc].
  rewrite Hc, Z.sub_diag. cbn [shr shr_m].
  apply Z.leb_le in Hb. rewrite Hb. reflexivity.
Qed.

Lemma valid_finite_intro s m e :
  fexp prec emax (Zpos (digits2_pos m) + e) = e -> e <= emax - prec ->
  valid_binary (S754_finite s m e) = true.
Proof.
  intros Hc Hb. cbn [SpecFloat.valid_binary]. unfold bounded, canonical_mantissa.
  apply andb_true_iff. split; [apply Z.eqb_eq, Hc | apply Z.leb_le, Hb].
Qed.

(** a positive integer below 2^53 converts exactly *)
Lemma binary_normalize_pos (p : positive) :
  Zpos p < 2 ^ 53 ->
  exists m e, binary_normalize prec emax (Zpos p) 0 false = S754_finite false m e
              /\ -52 <= e.
Proof.
  intros Hp. cbn [binary_normalize]. unfold binary_round.
  assert (Hd : 1 <= Zpos (digits2_pos p) <= 53).
  { split; [lia|]. apply (Zdigits2_le (Zpos p) 53); lia. }
  assert (Hf : fexp prec emax (Zpos (digits2_pos p) + 0) = Zpos (digits2_pos p) - 53)
    by (unfold fexp, SpecFloat.emin, emax, prec; lia).
  rewrite Hf. unfold shl_align.
  destruct (Zpos (digits2_pos p) - 53 - 0) as [|k|k] eqn:E.
  - exists p, 0. split; [|lia]. apply binary_round_aux_noshift.
    apply valid_finite_intro; unfold fexp, SpecFloat.emin, emax, prec; lia.
  - lia.
  - exists (shift_pos k p), (Zpos (digits2_pos p) - 53). split; [|lia].
    apply binary_round_aux_noshift. apply valid_finite_intro.
    + unfold shift_pos. rewrite digits2_pos_iter_xO.
      unfold fexp, SpecFloat.emin, emax, prec; lia.
    + unfold emax, prec; lia.
Qed.

Lemma of_int_finite (c : Z) :
  c <> 0 -> - 2 ^ 53 < c < 2 ^ 53 ->
  exists s m e, Prim2SF (b64_of_int c) = S754_finite s m e /\ -52 <= e.
Proof.
  intros Hc Hr. unfold b64_of_int. destruct (Z.ltb_spec c 0) as [Hn|Hn].
  - rewrite opp_spec, of_uint63_spec, Uint63.of_Z_spec.
    rewrite Z.mod_small by (change Uint63.wB with (2 ^ 63); lia).
    destruct (- c) as [|p|p] eqn:E; try lia.
    destruct (binary_normalize_pos p) as (m & e & -> & He); [lia|].
    exists true, m, e. split; [reflexivity|exact He].
  - rewrite of_uint63_spec, Uint63.of_Z_spec.
    rewrite Z.mod_small by (change Uint63.wB with (2 ^ 63); lia).
    destruct c as [|p|p] eqn:E; try lia.
    destruct (binary_normalize_pos p) as (m & e & -> & He); [lia|].
    exists false, m, e. split; [reflexivity|exact He].
Qed.

(** the reciprocal of a finite number of exponent at least -52 is finite *)
Lemma SFdiv_one_finite s2 m2 e2 :
  valid_binary (S754_finite s2 m2 e2) = true -> -52 <= e2 ->
  SFfinite (SFdiv prec emax (S754_finite false 4503599627370496 (-52))
                  (S754_finite s2 m2 e2)).
Proof.
  intros Hv He. destruct (valid_finite _ _ _ Hv) as [Hc Hb].
  cbn [SFdiv]. unfold SFdiv_core_binary.
  change (Zdigits2 (Zpos 4503599627370496)) with 53.
  cbn [Zdigits2].
  set (d2 := Zpos (digits2_pos m2)) in *.
  assert (Hd2 : 1 <= d2) by (unfold d2; lia).
  set (e' := Z.min _ _).
  assert (He' : e' <= -52 - e2) by (unfold e'; lia).
  assert (He'l : -1074 <= e').
  { unfold e', fexp, SpecFloat.emin, emax, prec in *. lia. }
  set (s := -52 - e2 - e').
  assert (Hs : 0 <= s <= 53).
  { unfold s, e', fexp, SpecFloat.emin, emax, prec in *. lia. }
  set (m' := match s with Zpos _ => _ | Z0 => _ | Zneg _ => _ end).
  assert (Hm' : m' = 2 ^ (52 + s)).
  { unfold m'. destruct s as [|k|k] eqn:Es; [reflexivity| |lia].
    rewrite Z.shiftl_mul_pow2 by lia. rewrite Z.pow_add_r by lia. reflexivity. }
  clearbody m'. subst m'.
  destruct (Z.div_eucl (2 ^ (52 + s)) (Zpos m2)) as [q r] eqn:Eq.
  assert (Hq : q = 2 ^ (52 + s) / Zpos m2) by (unfold Z.div; rewrite Eq; reflexivity).
  assert (Hpow : 0 < 2 ^ (52 + s)) by (apply Z.pow_pos_nonneg; lia).
  assert (Hq0 : 0 <= q) by (rewrite Hq; apply Z.div_pos; lia).
  assert (Hq1 : q <= 2 ^ (52 + s)).
  { pose proof (Z.mul_div_le (2 ^ (52 + s)) (Zpos m2) ltac:(lia)) as H.
    rewrite <- Hq in H. nia. }
  apply (binary_round_aux_finite _ q e' _ (53 + s)); [|lia|lia].
  split; [exact Hq0|]. replace (53 + s) with (Z.succ (52 + s)) by lia.
  rewrite Z.pow_succ_r by lia. lia.
Qed.

(** the cell of the averaged vector over zeros: 0 - (1/c) * 0 = 0 for every
    nonzero int c *)
Lemma average_cell_zero (c : Z) :
  c <> 0 -> - 2 ^ 53 < c < 2 ^ 53 ->
  PrimFloat.sub (b64_of_int 0)
    (PrimFloat.mul (PrimFloat.div (b64_of_int 1) (b64_of_int c)) (b64_of_int 0))
  = b64_of_int 0.
Proof.
  intros Hc Hr. apply Prim2SF_inj.
  rewrite sub_spec, mul_spec, div_spec.
  destruct (of_int_finite c Hc Hr) as (s & m & e & Hce & He).
  pose proof (Prim2SF_valid (b64_of_int c)) as Hv. rewrite Hce in *.
  rewrite Prim2SF_one.
  pose proof (SFdiv_one_finite s m e Hv He) as Hf.
  change (Prim2SF (b64_of_int 0)) with (S754_zero false).
  unfold SF64sub, SF64mul, SF64div.
  destruct (SFdiv prec emax _ _) as [sq|sq| |sq mq eq]; cbn [SFfinite] in Hf;
    try contradiction; cbn [SFmul]; destruct sq; reflexivity.
Qed.

(** [0 / N = 0] for a positive [int] *)
Lemma zero_div_int (N : Z) :
  0 < N < 2 ^ 53 ->
  PrimFloat.div (b64_of_int 0) (b64_of_int N) = b64_of_int 0.
Proof.
  intros HN. apply Prim2SF_inj. rewrite div_spec.
  destruct (of_int_finite N) as (s & m & e & HNe & _); [lia|lia|].
  pose proof (of_int_signed N ltac:(lia)) as Hs. rewrite HNe in *.
  cbn [SFsigned] in Hs. subst s. reflexivity.
Qed.

(** * The trainer on IEEE 754 binary64 *)

Section Binary64.

#[local] Existing Instance binary64.
Context {rng_t : Type}.
Variable mt_shuffle : rng_t -> list Z -> Z -> Z -> rng_t * list Z.

Implicit Types (b : crf_train_data_t) (opt : option_t) (st : state rng_t).

Ltac b64 :=
  unfold fv_zero;
  cbn [fv_add fv_sub fv_mul fv_div fv_lt fv_of_int floatval_t binary64].

(** ** The loss and the threshold 0 *)

(** The loss is a sum of quotients of non-negative integers: its sign bit is
    never set. *)
Lemma loss_signed_process b st n :
  SFsigned false (Prim2SF (st_loss st)) ->
  SFsigned false (Prim2SF (st_loss (process_instance b st n))).
Proof.
  intros H. unfold process_instance. destruct (tag b _ _ _) as [viterbi score].
  cbv zeta.
  match goal with
  | |- context [0 <? diff ?x ?y ?k] =>
      pose proof (diff_bounds x y k) as Hb;
      destruct (Z.ltb_spec 0 (diff x y k)) as [Hd|Hd]
  end; cbn [st_loss]; [|exact H].
  b64. rewrite add_spec, div_spec. apply SFadd_signed; [exact H|].
  apply SFdiv_signed; apply of_int_signed; lia.
Qed.

Lemma loss_signed_epoch b st :
  SFsigned false (Prim2SF (st_loss (epoch mt_shuffle b st))).
Proof.
  unfold epoch, instances_loop. cbn [average_and_report st_loss].
  assert (H : SFsigned false
                (Prim2SF (st_loss (shuffle_instances mt_shuffle b st)))).
  { destruct (shuffle_instances_frame mt_shuffle b st) as (_ & _ & _ & _ & -> & _).
    reflexivity. }
  revert H. generalize (shuffle_instances mt_shuffle b st).
  induction (seqZ 0 (num_instances b)) as [|n ns IH]; intros s H; simpl.
  - exact H.
  - apply IH, loss_signed_process, H.
Qed.

(** [loss / N < 0] is false. *)
Lemma never_converged b opt st :
  PrimFloat.eqb (epsilon opt) fv_zero = true -> 0 <= num_instances b ->
  converged b opt (epoch mt_shuffle b st) = false.
Proof.
  intros Heps HN. unfold converged. b64. rewrite ltb_spec, div_spec.
  rewrite FloatAxioms.eqb_spec in Heps. change (Prim2SF (@fv_zero binary64)) with (S754_zero false) in Heps. apply SFeqb_zero in Heps. destruct Heps as [s ->].
  apply SFltb_signed_zero, SFdiv_signed;
    [apply loss_signed_epoch | apply of_int_signed, HN].
Qed.

(** C2 (amended).  In binary64, with [epsilon = 0] and a batch that is not
    empty, the convergence test never fires, whether the loss of the
    iteration is 0 or positive: every iteration is followed by the next one,
    the run goes through [max_iterations] iterations and leaves the loop by
    its bound, without the termination message. *)
Theorem threshold_zero_never_stops b opt (rng : rng_t) :
  PrimFloat.eqb (epsilon opt) fv_zero = true ->
  0 < num_instances b ->
  length (run_epoch_ends mt_shuffle b opt rng) = Z.to_nat (max_iterations opt)
  /\ Forall (fun st => converged b opt st = false)
       (run_epoch_ends mt_shuffle b opt rng)
  /\ epochs_run (st_trace (run mt_shuffle b opt rng))
     = Z.to_nat (max_iterations opt)
  /\ stops_logged (st_trace (run mt_shuffle b opt rng)) = 0%nat
  /\ st_i (run mt_shuffle b opt rng) = Z.max 0 (max_iterations opt).
Proof.
  intros Heps HN.
  assert (Hstep : forall s : state rng_t, True ->
            converged b opt (epoch mt_shuffle b s) = false /\ True).
  { intros s _. split; [apply never_converged; [assumption|lia]|exact I]. }
  assert (Hlen : length (run_epoch_ends mt_shuffle b opt rng)
                 = Z.to_nat (max_iterations opt)).
  { apply epoch_ends_length_full with (P := fun _ => True); auto. }
  split; [exact Hlen|]. split.
  { apply epoch_ends_Forall with (P := fun _ => True); [|exact I].
    intros s _. split; [apply never_converged; [assumption|lia]|exact I]. }
  split.
  { unfold run. rewrite iterations_epochs_run. exact Hlen. }
  unfold run.
  destruct (iterations_exhausted mt_shuffle (fun _ => True) b opt
              (Z.to_nat (max_iterations opt)) (start_state b rng) Hstep I)
    as [Hi Hs].
  split; [exact Hs|]. rewrite Hi. simpl. lia.
Qed.

(** X14. In binary64 the loss of an iteration never has its sign bit set:
    it is [+0], a positive number, [+infinity] or not a number. *)
Theorem loss_is_never_negative b opt (rng : rng_t) :
  Forall (fun st : @state binary64 rng_t => SFsigned false (Prim2SF (st_loss st)))
    (run_epoch_ends mt_shuffle b opt rng)
  /\ SFsigned false (Prim2SF (st_loss (run mt_shuffle b opt rng))).
Proof.
  split.
  - apply epoch_ends_Forall with (P := fun _ => True); [|exact I].
    intros s _. split; [apply loss_signed_epoch|exact I].
  - unfold run.
    apply iterations_invariant
      with (P := fun s : @state binary64 rng_t => SFsigned false (Prim2SF (st_loss s))).
    + intros s _. apply loss_signed_epoch.
    + exact (fun s H => H).
    + exact (fun s H => H).
    + reflexivity.
Qed.

(** ** A mispredicted instance *)

Lemma enum_apply_gain (c : Z) (feats : list (Z * floatval_t))
    (w ws : list floatval_t) :
  (ud_w (enum_apply feats {| ud_w := w; ud_ws := ws;
                             ud_c := fv_of_int 1; ud_cs := fv_of_int c |}),
   ud_ws (enum_apply feats {| ud_w := w; ud_ws := ws;
                              ud_c := fv_of_int 1; ud_cs := fv_of_int c |}))
  = fold_left (gain c) feats (w, ws).
Proof.
  unfold enum_apply. revert w ws.
  induction feats as [|[fid v] rest IH]; intros w ws; [reflexivity|].
  cbn [fold_left]. unfold update_weights at 2 4. cbn [ud_w ud_ws ud_c ud_cs fst snd].
  rewrite (array_update_ext w fid _ (fun x => fv_add x v))
    by (intros x; b64; rewrite mul_one; reflexivity).
  apply IH.
Qed.

Lemma enum_apply_lose (c : Z) (feats : list (Z * floatval_t))
    (w ws : list floatval_t) :
  c <> 0 ->
  (ud_w (enum_apply feats {| ud_w := w; ud_ws := ws;
                             ud_c := fv_of_int (-1);
                             ud_cs := fv_of_int (- c) |}),
   ud_ws (enum_apply feats {| ud_w := w; ud_ws := ws;
                              ud_c := fv_of_int (-1);
                              ud_cs := fv_of_int (- c) |}))
  = fold_left (lose c) feats (w, ws).
Proof.
  intros Hc. unfold enum_apply. revert w ws.
  induction feats as [|[fid v] rest IH]; intros w ws; [reflexivity|].
  cbn [fold_left]. unfold update_weights at 2 4. cbn [ud_w ud_ws ud_c ud_cs fst snd].
  rewrite (array_update_ext w fid _ (fun x => fv_sub x v))
    by (intros x; b64; rewrite mul_minus_one, add_opp; reflexivity).
  rewrite (array_update_ext ws fid _
             (fun x => fv_sub x (fv_mul (fv_of_int c) v)))
    by (intros x; b64; apply add_mul_neg, Hc).
  apply IH.
Qed.


(** ** The average at the end of an iteration *)


(** ** A decoder that is always right *)

Lemma average_of_zeros (c : Z) (K : nat) :
  c <> 0 -> INT_MIN <= c <= INT_MAX ->
  average_of c (replicate K fv_zero) (replicate K fv_zero)
  = replicate K fv_zero.
Proof.
  intros Hc Hr. unfold average_of.
  induction K as [|K IH]; [reflexivity|].
  cbn [replicate zip_with]. rewrite IH. f_equal.
  b64. apply average_cell_zero; [exact Hc|].
  unfold INT_MIN, INT_MAX in Hr. lia.
Qed.

Section AlwaysRight.

Variable b : crf_train_data_t.
Hypothesis always_right : forall w seq v,
  seq ∈ seqs b -> diff (labels seq) (fst (tag b w seq v)) (num_items seq) = 0.

Lemma unmodified_epoch st :
  calm b st ->
  unmodified b (epoch mt_shuffle b st) /\ calm b (epoch mt_shuffle b st).
Proof.
  intros (Hn & Hs & Hc).
  destruct (never_updated_epoch mt_shuffle b always_right st Hn) as [Hn' Hl].
  destruct (well_sized_epoch mt_shuffle b st Hs) as [Hs' E].
  pose proof (counter_ok_epoch mt_shuffle b st Hc) as Hc'.
  split; [|split; [exact Hn'|split; [exact Hs'|exact Hc']]].
  destruct Hn' as (Hw & Hws & _).
  unfold unmodified. repeat split; try assumption.
  intros Hc0. rewrite E, Hw, Hws. apply average_of_zeros; [exact Hc0|].
  rewrite Hc'. apply int_wrap_range.
Qed.

Lemma calm_start (rng : rng_t) : calm b (start_state b rng).
Proof.
  split; [repeat split; constructor|].
  split; [apply well_sized_start|reflexivity].
Qed.

Lemma calm_log st : calm b st -> calm b (log_terminated st).
Proof.
  intros ((Hw & Hws & Ho & Hl) & Hs & Hc).
  split; [|split; [exact Hs|apply counter_ok_log, Hc]].
  unfold never_updated, oracle_calls in *.
  cbn [log_terminated st_w st_ws st_trace].
  rewrite count_events_app, logged_losses_append, Ho, app_nil_r. auto.
Qed.

Lemma unmodified_ends opt (rng : rng_t) :
  Forall (fun st => unmodified b st /\ counter_ok st)
    (run_epoch_ends mt_shuffle b opt rng).
Proof.
  apply epoch_ends_Forall with (P := calm b); [|apply calm_start].
  intros s Hs. destruct (unmodified_epoch s Hs) as [Hu Hcalm].
  split; [split; [exact Hu|apply Hcalm]|exact Hcalm].
Qed.

Lemma unmodified_run opt (rng : rng_t) :
  unmodified b (run mt_shuffle b opt rng)
  /\ Forall (fun l => l = fv_zero)
       (logged_losses (st_trace (run mt_shuffle b opt rng))).
Proof.
  assert (H : unmodified b (run mt_shuffle b opt rng)
              /\ calm b (run mt_shuffle b opt rng)).
  { unfold run.
    apply iterations_invariant
      with (P := fun st => unmodified b st /\ calm b st).
    - intros s [_ Hs]. apply unmodified_epoch, Hs.
    - exact (fun s H => H).
    - intros s [Hu Hs]. split; [exact Hu|apply calm_log, Hs].
    - split; [|apply calm_start]. repeat split. }
  destruct H as [Hu ((_ & _ & _ & Hl) & _)]. split; assumption.
Qed.

Lemma unmodified_untouched st :
  unmodified b st -> counter_ok st ->
  instances_processed (st_trace st) < INT_MAX -> untouched b st.
Proof.
  intros (Hw & Hws & Hl & Hwa) Hc Hlt.
  apply counter_ok_in_range in Hc; [|exact Hlt]. unfold counts_instances in Hc.
  split; try assumption. apply Hwa.
  unfold instances_processed in *. lia.
Qed.

End AlwaysRight.

(** C7 (amended).  In binary64, when the decoder answers the gold labels on
    every instance of the batch, no instance modifies [w], [ws] or the loss,
    only the counter advances; at the end of every iteration and of the run
    [w] and [ws] are the zero vector and the loss is 0, every logged loss
    is 0, and [wa] is the zero vector provided the counter is not 0, hence
    as long as fewer than [INT_MAX] instances were processed. *)
Theorem no_mistake_no_update_binary64 b opt (rng : rng_t) :
  (forall w seq v,
     seq ∈ seqs b ->
     diff (labels seq) (fst (tag b w seq v)) (num_items seq) = 0) ->
  (forall st n,
     st_w (process_instance b st n) = st_w st
     /\ st_ws (process_instance b st n) = st_ws st
     /\ st_loss (process_instance b st n) = st_loss st
     /\ st_c (process_instance b st n) = int_wrap (st_c st + 1))
  /\ Forall (unmodified b) (run_epoch_ends mt_shuffle b opt rng)
  /\ unmodified b (run mt_shuffle b opt rng)
  /\ Forall (fun st => instances_processed (st_trace st) < INT_MAX ->
                       untouched b st)
       (run_epoch_ends mt_shuffle b opt rng)
  /\ (instances_processed (st_trace (run mt_shuffle b opt rng)) < INT_MAX ->
      untouched b (run mt_shuffle b opt rng))
  /\ Forall (fun l => l = fv_zero)
       (logged_losses (st_trace (run mt_shuffle b opt rng))).
Proof.
  intros Hright. split.
  { intros st n.
    destruct (process_instance_no_mistake b Hright st n) as (? & ? & ? & _).
    repeat split; try assumption. apply process_instance_c. }
  pose proof (unmodified_ends b Hright opt rng) as Hends.
  destruct (unmodified_run b Hright opt rng) as [Hrun Hlog].
  split; [eapply Forall_impl; [exact Hends|]; intros s [H _]; exact H|].
  split; [exact Hrun|].
  split.
  { eapply Forall_impl; [exact Hends|]. intros s [Hu Hc].
    apply unmodified_untouched; assumption. }
  split; [|exact Hlog].
  apply unmodified_untouched; [exact Hrun|apply counter_ok_run].
Qed.

(** X16.  In binary64, with a positive threshold, a batch that is not empty
    and at least one iteration allowed, a decoder that answers the gold
    labels on every instance makes the trainer stop after the first
    iteration, with the termination message. *)
Theorem right_decoder_stops_at_once b opt (rng : rng_t) :
  (forall w seq v,
     seq ∈ seqs b ->
     diff (labels seq) (fst (tag b w seq v)) (num_items seq) = 0) ->
  fv_lt fv_zero (epsilon opt) = true ->
  0 < num_instances b <= INT_MAX ->
  0 < max_iterations opt ->
  run_epoch_ends mt_shuffle b opt rng = [epoch mt_shuffle b (start_state b rng)]
  /\ stops_logged (st_trace (run mt_shuffle b opt rng)) = 1%nat
  /\ st_i (run mt_shuffle b opt rng) = 0.
Proof.
  intros Hright Heps HN Hmax. apply first_iteration_converges; [exact Hmax|].
  destruct (never_updated_epoch mt_shuffle b Hright (start_state b rng))
    as [_ Hl]; [repeat split; constructor|].
  unfold converged. rewrite Hl. b64.
  rewrite zero_div_int by (unfold INT_MAX in HN; lia). exact Heps.
Qed.

End Binary64.

(** * The claims as stated, on particular runs *)


Lemma gold_batch_of_never_converges (N max_it : Z) :
  0 <= N ->
  length (run_epoch_ends (F := binary64) identity_shuffle (gold_batch_of N)
            (options_with_cap max_it) tt) = Z.to_nat max_it.
Proof.
  intros HN. apply epoch_ends_length_full with (P := fun _ => True); [|exact I].
  intros s _. split; [|exact I]. apply never_converged; [reflexivity|exact HN].
Qed.

(** C5 (as stated).  After 32768 iterations over 65536 instances, that is
    2^31 instances, the counter is not the number of instances processed
    plus 1: it is below the 1 it started from. *)
Lemma counter_overflows :
  ~ counts_instances
      (run (F := binary64) identity_shuffle (gold_batch_of 65536)
         (options_with_cap 32768) tt)
  /\ st_c (run (F := binary64) identity_shuffle (gold_batch_of 65536)
             (options_with_cap 32768) tt)
     < st_c (start_state (F := binary64) (gold_batch_of 65536) tt).
Proof.
  unfold counts_instances. rewrite run_counter, run_processed.
  rewrite gold_batch_of_never_converges by lia.
  cbn [num_instances gold_batch_of max_iterations options_with_cap].
  rewrite Z2Nat.id by lia.
  split; [vm_compute; intros H; discriminate H|reflexivity].
Qed.

(** C7 (as stated).  With a decoder that is always right, after 65535
    iterations over 65537 instances, that is 2^32 - 1 instances, the counter
    is 0 and the [wa] of the last iteration is not the zero vector: its cells
    are not numbers. *)
Lemma average_is_lost_when_counter_is_zero :
  ~ untouched (gold_batch_of 65537)
      (run (F := binary64) identity_shuffle (gold_batch_of 65537)
         (options_with_cap 65535) tt)
  /\ st_c (run (F := binary64) identity_shuffle (gold_batch_of 65537)
             (options_with_cap 65535) tt) = 0.
Proof.
  assert (Hc : st_c (run (F := binary64) identity_shuffle (gold_batch_of 65537)
                       (options_with_cap 65535) tt) = 0).
  { rewrite run_counter, gold_batch_of_never_converges by lia.
    cbn [num_instances gold_batch_of max_iterations options_with_cap].
    rewrite Z2Nat.id by lia. reflexivity. }
  split; [|exact Hc].
  intros [Hw Hws Hwa _].
  rewrite run_average in Hwa
    by (cbn [max_iterations options_with_cap]; lia).
  rewrite Hw, Hws, Hc in Hwa.
  cbn [num_features gold_batch_of] in Hwa.
  apply (f_equal (fun l => match l with
                           | x :: _ => PrimFloat.is_nan x
                           | [] => false
                           end)) in Hwa.
  vm_compute in Hwa. discriminate Hwa.
Qed.

(** X12.  In binary64 the order in which the feature oracle hands its pairs
    to [update_weights] matters: the pairs (0, 2^53), (0, 1), (0, 1) leave
    [w[0] = 2^53], the same pairs in the reverse order [w[0] = 2^53 + 2]. *)
Theorem enumeration_order_matters :
  let ud := @Build_update_data binary64 [0%float] [0%float] 1%float 1%float in
  let feats : list (Z * @floatval_t binary64) :=
    [(0, 9007199254740992%float); (0, 1%float); (0, 1%float)] in
  Permutation feats (reverse feats)
  /\ ud_w (enum_apply feats ud) = [9007199254740992%float]
  /\ ud_w (enum_apply (reverse feats) ud) = [9007199254740994%float]
  /\ ud_w (enum_apply feats ud) <> ud_w (enum_apply (reverse feats) ud).
Proof.
  split; [apply Permutation_sym, reverse_Permutation|].
  split; [vm_compute; reflexivity|].
  split; [vm_compute; reflexivity|].
  intros H.
  apply (f_equal (fun l => match l with
                           | x :: _ => Prim2SF x
                           | [] => S754_nan
                           end)) in H.
  vm_compute in H. discriminate H.
Qed.

(** * The theorems on binary64 at work on the batches above *)

Lemma threshold_zero_never_stops_witness :
  length (run_epoch_ends (F := binary64) identity_shuffle one_mistake_batch
            (options_with_cap 3) tt) = 3%nat.
Proof.
  refine (proj1 (threshold_zero_never_stops identity_shuffle
                   one_mistake_batch (options_with_cap 3) tt _ _)).
  - reflexivity.
  - simpl. lia.
Defined.


Lemma no_mistake_no_update_binary64_witness :
  unmodified (F := binary64) gold_batch
    (run identity_shuffle gold_batch (options_with_cap 2) tt).
Proof.
  exact (proj1 (proj2 (proj2
    (no_mistake_no_update_binary64 identity_shuffle gold_batch
       (options_with_cap 2) tt gold_tag_always_right)))).
Defined.

Lemma right_decoder_stops_at_once_witness :
  st_i (run (F := binary64) identity_shuffle gold_batch
          (@options_with_threshold binary64 3 0.5%float) tt) = 0.
Proof.
  refine (proj2 (proj2 (right_decoder_stops_at_once identity_shuffle
                          gold_batch
                          (@options_with_threshold binary64 3 0.5%float) tt
                          gold_tag_always_right _ _ _))).
  - reflexivity.
  - simpl. unfold INT_MAX. lia.
  - simpl. lia.
Defined.
